(** * debugSerial: a transmit-only UART debug library for the ATmega328PB

    Shallow embedding of [debugSerial.h] / [debugSerial.cpp] and the
    properties of its ring buffer, of the interrupt-driven transmit
    protocol and of the number formatting routines.

    Conventions.
    - C integers are [Z] with the wrap-around of each store written out
      ([uint8], [uint16], [uint32], [int32]); C's [/] and [%] truncate toward
      zero and are [Z.quot] and [Z.rem].
    - [char] is [ascii]; a conversion from [int] to [char] keeps the low
      eight bits.
    - a C function working on an object through a pointer is a computation in
      a small state monad over that object; [void] is [unit]. *)

From Stdlib Require Import ZArith Lia Bool Ascii String.
From Stdlib Require Import Floats.SpecFloat.
From stdpp Require Import base list.

Local Open Scope Z_scope.

(** ** Machine integers *)

Definition uint8 (x : Z) : Z := x mod 2 ^ 8.
Definition uint16 (x : Z) : Z := x mod 2 ^ 16.
Definition uint32 (x : Z) : Z := x mod 2 ^ 32.

(** Two's complement value of the low 32 bits. *)
Definition int32 (x : Z) : Z := (x + 2 ^ 31) mod 2 ^ 32 - 2 ^ 31.

Definition INT32_MIN : Z := - 2 ^ 31.
Definition INT32_MAX : Z := 2 ^ 31 - 1.

(** [(char) x] for an integer [x]. *)
Definition char_of_int (x : Z) : ascii := ascii_of_N (Z.to_N (uint8 x)).

(** The value of a [char] in an integer expression (code points 0..255; the
    library only ever adds digits 0..9 to ['0']). *)
Definition int_of_char (c : ascii) : Z := Z.of_N (N_of_ascii c).

(** ** State monad *)

Definition M (St A : Type) : Type := St -> A * St.

Definition ret {St A} (a : A) : M St A := fun s => (a, s).

Definition bind {St A B} (m : M St A) (k : A -> M St B) : M St B :=
  fun s => let (a, s') := m s in k a s'.

Definition exec {St A} (m : M St A) (s : St) : St := snd (m s).
Definition eval {St A} (m : M St A) (s : St) : A := fst (m s).

Declare Scope cmd_scope.
Delimit Scope cmd_scope with cmd.
Notation "'let*' x ':=' c 'in' k" := (bind c (fun x => k))
  (at level 10, x name, c at level 100, k at level 200) : cmd_scope.
Notation "c ';;' k" := (bind c (fun _ => k))
  (at level 100, k at level 200, right associativity) : cmd_scope.

(** ** The ring buffer ([debugRingBuffer_t]) *)

Record debugRingBuffer_t := mkRing {
  debugBuffer : list ascii;   (* char debugBuffer[DEBUG_BUFFER_SIZE] *)
  debugHead : Z;              (* volatile uint8_t *)
  debugTail : Z               (* volatile uint8_t *)
}.

Section RingBuffer.

(** The capacity, [DEBUG_BUFFER_SIZE] in the header. *)
Variable SIZE : Z.

Definition debug_buffer_init : M debugRingBuffer_t unit := fun buf =>
  (tt, {| debugBuffer := debugBuffer buf; debugHead := 0; debugTail := 0 |}).

Definition debug_buffer_is_empty : M debugRingBuffer_t bool := fun buf =>
  (debugHead buf =? debugTail buf, buf).

Definition debug_buffer_is_full : M debugRingBuffer_t bool := fun buf =>
  (Z.rem (debugHead buf + 1) SIZE =? debugTail buf, buf).

Definition debug_buffer_put (data : ascii) : M debugRingBuffer_t unit :=
  (let* full := debug_buffer_is_full in
   if negb full then
     fun buf =>
       (tt, {| debugBuffer := <[Z.to_nat (debugHead buf) := data]> (debugBuffer buf);
               debugHead := uint8 (Z.rem (debugHead buf + 1) SIZE);
               debugTail := debugTail buf |})
   else ret tt)%cmd.

(** [Some c]: the function returned [true] after storing [c] in [*data];
    [None]: it returned [false] and left [*data] alone. *)
Definition debug_buffer_get : M debugRingBuffer_t (option ascii) :=
  (let* empty := debug_buffer_is_empty in
   if negb empty then
     fun buf =>
       (Some (nth (Z.to_nat (debugTail buf)) (debugBuffer buf) zero),
        {| debugBuffer := debugBuffer buf;
           debugHead := debugHead buf;
           debugTail := uint8 (Z.rem (debugTail buf + 1) SIZE) |})
   else ret None)%cmd.

(** *** Invariant and abstract contents *)

Definition cursors_in_range (buf : debugRingBuffer_t) : Prop :=
  (0 <= debugHead buf < SIZE) /\ (0 <= debugTail buf < SIZE).

Definition storage_fits (buf : debugRingBuffer_t) : Prop :=
  Z.of_nat (length (debugBuffer buf)) = SIZE.

(** The [n] bytes found walking the storage forward from index [t]. *)
Fixpoint walk (st : list ascii) (n : nat) (t : Z) : list ascii :=
  match n with
  | O => []
  | S n' => nth (Z.to_nat t) st zero :: walk st n' ((t + 1) mod SIZE)
  end.

Definition occupancy (buf : debugRingBuffer_t) : Z :=
  (debugHead buf - debugTail buf) mod SIZE.

(** The queued bytes, oldest first. *)
Definition pending (buf : debugRingBuffer_t) : list ascii :=
  walk (debugBuffer buf) (Z.to_nat (occupancy buf)) (debugTail buf).

(** *** Sequences of calls *)

Inductive rb_call := Put (c : ascii) | Get.

Definition puts_of (calls : list rb_call) : list ascii :=
  omap (fun c => match c with Put x => Some x | Get => None end) calls.

Definition gets_in (calls : list rb_call) : nat :=
  length (omap (fun c => match c with Get => Some tt | Put _ => None end) calls).

(** Runs the calls in order and collects the bytes [get] returned. *)
Fixpoint run_calls (calls : list rb_call) : M debugRingBuffer_t (list ascii) :=
  match calls with
  | [] => ret []
  | Put c :: rest => (debug_buffer_put c ;; run_calls rest)%cmd
  | Get :: rest =>
      (let* r := debug_buffer_get in
       let* out := run_calls rest in
       ret (match r with Some c => c :: out | None => out end))%cmd
  end.

(** No [put] meets a full buffer and no [get] an empty one. *)
Fixpoint in_capacity (calls : list rb_call) (buf : debugRingBuffer_t) : bool :=
  match calls with
  | [] => true
  | Put c :: rest =>
      negb (eval debug_buffer_is_full buf)
      && in_capacity rest (exec (debug_buffer_put c) buf)
  | Get :: rest =>
      negb (eval debug_buffer_is_empty buf)
      && in_capacity rest (exec debug_buffer_get buf)
  end.

(** States reachable from an initialised buffer. *)
Inductive reachable : debugRingBuffer_t -> Prop :=
| reach_init buf : reachable (exec debug_buffer_init buf)
| reach_is_empty buf : reachable buf -> reachable (exec debug_buffer_is_empty buf)
| reach_is_full buf : reachable buf -> reachable (exec debug_buffer_is_full buf)
| reach_put buf c : reachable buf -> reachable (exec (debug_buffer_put c) buf)
| reach_get buf : reachable buf -> reachable (exec debug_buffer_get buf).

End RingBuffer.

Definition DEBUG_BUFFER_SIZE : Z := 100.

(** ** The device: registers of USART1 and the status register

    Bit positions are those of <avr/io.h> for the ATmega328PB. *)

Definition U2X1 : Z := 1.
Definition TXEN1 : Z := 3.
Definition UDRIE1 : Z := 5.
Definition UCSZ10 : Z := 1.
Definition UCSZ11 : Z := 2.

Inductive ioreg := rUBRR1H | rUBRR1L | rUCSR1A | rUCSR1B | rUCSR1C | rUDR1.

(** What the program does to the hardware, in program order: [cli], [sei]
    and every store to an I/O register (they are volatile accesses). A store
    to [rUDR1] hands a byte to the transmitter. *)
Inductive event := EvCli | EvSei | EvStore (r : ioreg) (v : Z).

Record machine := mkMachine {
  UBRR1H : Z;
  UBRR1L : Z;
  UCSR1A : Z;
  UCSR1B : Z;
  UCSR1C : Z;
  SREG_I : bool;                       (* global interrupt enable *)
  debugTxBuffer : debugRingBuffer_t;   (* static debugRingBuffer_t debugTxBuffer *)
  trace : list event                   (* oldest first *)
}.

Definition log (e : event) (m : machine) : list event := trace m ++ [e].

Definition cli : M machine unit := fun m =>
  (tt, mkMachine (UBRR1H m) (UBRR1L m) (UCSR1A m) (UCSR1B m) (UCSR1C m)
         false (debugTxBuffer m) (log EvCli m)).

Definition sei : M machine unit := fun m =>
  (tt, mkMachine (UBRR1H m) (UBRR1L m) (UCSR1A m) (UCSR1B m) (UCSR1C m)
         true (debugTxBuffer m) (log EvSei m)).

Definition load (r : ioreg) : M machine Z := fun m =>
  (match r with
   | rUBRR1H => UBRR1H m | rUBRR1L => UBRR1L m | rUCSR1A => UCSR1A m
   | rUCSR1B => UCSR1B m | rUCSR1C => UCSR1C m
   | rUDR1 => 0     (* the receive register; this library never reads it *)
   end, m).

(** A store keeps the low eight bits. *)
Definition store (r : ioreg) (x : Z) : M machine unit := fun m =>
  let v := uint8 x in
  let t := log (EvStore r v) m in
  (tt, match r with
       | rUBRR1H => mkMachine v (UBRR1L m) (UCSR1A m) (UCSR1B m) (UCSR1C m) (SREG_I m) (debugTxBuffer m) t
       | rUBRR1L => mkMachine (UBRR1H m) v (UCSR1A m) (UCSR1B m) (UCSR1C m) (SREG_I m) (debugTxBuffer m) t
       | rUCSR1A => mkMachine (UBRR1H m) (UBRR1L m) v (UCSR1B m) (UCSR1C m) (SREG_I m) (debugTxBuffer m) t
       | rUCSR1B => mkMachine (UBRR1H m) (UBRR1L m) (UCSR1A m) v (UCSR1C m) (SREG_I m) (debugTxBuffer m) t
       | rUCSR1C => mkMachine (UBRR1H m) (UBRR1L m) (UCSR1A m) (UCSR1B m) v (SREG_I m) (debugTxBuffer m) t
       | rUDR1 => mkMachine (UBRR1H m) (UBRR1L m) (UCSR1A m) (UCSR1B m) (UCSR1C m) (SREG_I m) (debugTxBuffer m) t
       end).

(** Runs a ring buffer operation on [&debugTxBuffer]. *)
Definition on_tx {A} (op : M debugRingBuffer_t A) : M machine A := fun m =>
  let (a, b) := op (debugTxBuffer m) in
  (a, mkMachine (UBRR1H m) (UBRR1L m) (UCSR1A m) (UCSR1B m) (UCSR1C m)
        (SREG_I m) b (trace m)).

(** The data-register-empty interrupt is enabled. *)
Definition armed (m : machine) : bool := Z.testbit (UCSR1B m) UDRIE1.

(** ** The driver *)

(** [F_CPU] comes from the project settings. On the target [unsigned long]
    has 32 bits. (A baud rate for which [8UL * debugBaud] is zero makes the C
    division undefined; [Z.quot] gives 0 there.) *)
Definition debugSerialBegin (F_CPU : Z) (debugBaud : Z) : M machine unit :=
  (let ubrr := uint16 (uint32 (Z.quot (uint32 F_CPU) (uint32 (8 * uint32 debugBaud)) - 1)) in
   store rUBRR1H (Z.shiftr ubrr 8) ;;
   store rUBRR1L ubrr ;;
   let* a := load rUCSR1A in
   store rUCSR1A (Z.lor a (Z.shiftl 1 U2X1)) ;;
   store rUCSR1B (Z.lor (Z.shiftl 1 TXEN1) (Z.shiftl 1 UDRIE1)) ;;
   store rUCSR1C (Z.lor (Z.shiftl 1 UCSZ11) (Z.shiftl 1 UCSZ10)) ;;
   on_tx debug_buffer_init)%cmd.

Definition uart1_print_char (data : ascii) : M machine unit :=
  (cli ;;
   let* was_empty := on_tx debug_buffer_is_empty in
   on_tx (debug_buffer_put DEBUG_BUFFER_SIZE data) ;;
   (if was_empty : bool then
      let* b := load rUCSR1B in
      store rUCSR1B (Z.lor b (Z.shiftl 1 UDRIE1))
    else ret tt) ;;
   sei)%cmd.

(** The body of [ISR(USART1_UDRE_vect)]. *)
Definition ISR_USART1_UDRE_vect : M machine unit :=
  (let* r := on_tx (debug_buffer_get DEBUG_BUFFER_SIZE) in
   match r with
   | Some data => store rUDR1 (int_of_char data)
   | None =>
       let* b := load rUCSR1B in
       store rUCSR1B (Z.land b (Z.lnot (Z.shiftl 1 UDRIE1)))
   end)%cmd.

(** [str] is the text up to the terminating NUL: the loop stops at the first
    zero byte or at the end of [str]. *)
Fixpoint debugPrint (str : string) : M machine unit :=
  match str with
  | EmptyString => ret tt
  | String c rest =>
      if Ascii.eqb c zero then ret tt
      else (uart1_print_char c ;; debugPrint rest)%cmd
  end.

Definition debugPrintln (str : string) : M machine unit :=
  (debugPrint str ;;
   uart1_print_char "013" ;;
   uart1_print_char "010")%cmd.

(** *** Integers *)

Inductive outcome (A : Type) :=
| Done (a : A)
| OutOfBounds      (* a store outside the local array: undefined in C *)
| OutOfFuel.       (* the model's loop bound was too small *)
Arguments Done {A} a.
Arguments OutOfBounds {A}.
Arguments OutOfFuel {A}.

(** [while (value > 0) { digits[count++] = '0' + (value % 10); value /= 10; }]
    One unit of fuel per iteration. [count] is a [uint8_t]. *)
Fixpoint extract_digits (fuel : nat) (value : Z) (digits : list ascii) (count : Z)
  : outcome (list ascii * Z) :=
  if value >? 0 then
    match fuel with
    | O => OutOfFuel
    | S fuel' =>
        if (Z.to_nat count <? length digits)%nat then
          extract_digits fuel' (Z.quot value 10)
            (<[Z.to_nat count := char_of_int (int_of_char "0" + Z.rem value 10)]> digits)
            (uint8 (count + 1))
        else OutOfBounds
    end
  else Done (digits, count).

(** Every iteration at least halves a positive [value]. *)
Definition loop_fuel (value : Z) : nat := S (Z.to_nat (Z.log2 value)).

(** [while (count > 0) { uart1_print_char(digits[--count]); }] with
    [n = count]. *)
Fixpoint emit_digits (digits : list ascii) (n : nat) : M machine unit :=
  match n with
  | O => ret tt
  | S n' => (uart1_print_char (nth n' digits zero) ;; emit_digits digits n')%cmd
  end.

(** [value = -value] is taken modulo 2^32; it overflows only at [INT32_MIN],
    where C++ leaves it undefined ([debugPrintInt_checked] below marks that
    case). The local [char digits[10]] starts out as zeros here; no element
    is read before it is written. *)
Definition debugPrintInt (value : Z) : M machine unit :=
  (let* value :=
     (if value <? 0 then (uart1_print_char "-" ;; ret (int32 (- value)))
      else ret value) in
   if value =? 0 then uart1_print_char "0"
   else
     match extract_digits (loop_fuel value) value (replicate 10 zero) 0 with
     | Done (digits, count) => emit_digits digits (Z.to_nat count)
     | OutOfBounds | OutOfFuel => ret tt
     end)%cmd.

Definition debugPrintIntln (value : Z) : M machine unit :=
  (debugPrintInt value ;;
   uart1_print_char "013" ;;
   uart1_print_char "010")%cmd.

(** *** Floating point

    [float] is IEEE 754 binary32 with round to nearest, ties to even. *)

Definition prec : Z := 24.
Definition emax : Z := 128.

Definition float_of_int (z : Z) : spec_float := binary_normalize prec emax z 0 false.

(** Conversion to an integer type discards the fraction. (Infinities and
    NaN, undefined in C, give 0; so is a value outside the range of the
    target type, which the callers below wrap.) *)
Definition int_of_float (f : spec_float) : Z :=
  match f with
  | S754_finite s m e => cond_Zopp s (Z.shiftl (Z.pos m) e)
  | _ => 0
  end.

(** Two's complement value of the low 16 bits ([int] on the AVR). *)
Definition int16 (x : Z) : Z := (x + 2 ^ 15) mod 2 ^ 16 - 2 ^ 15.

(** The [float] nearest to the decimal literal [num / den]. *)
Definition float_literal (num den : Z) : spec_float :=
  SFdiv prec emax (float_of_int num) (float_of_int den).

(** The body of the [for] loop, [n] times. *)
Fixpoint print_decimals (n : nat) (decimalPart : spec_float) : M machine unit :=
  match n with
  | O => ret tt
  | S n' =>
      let decimalPart := SFmul prec emax decimalPart (float_of_int 10) in
      let digit := int16 (int_of_float decimalPart) in
      (uart1_print_char (char_of_int (int_of_char "0" + digit)) ;;
       print_decimals n' (SFsub prec emax decimalPart (float_of_int digit)))%cmd
  end.

Definition debugPrintFloat (value : spec_float) (decimalPlaces : Z) : M machine unit :=
  (let* value :=
     (if SFltb value (float_of_int 0) then (uart1_print_char "-" ;; ret (SFopp value))
      else ret value) in
   let intPart := int32 (int_of_float value) in
   debugPrintInt intPart ;;
   if decimalPlaces >? 0 then
     uart1_print_char "." ;;
     print_decimals (Z.to_nat decimalPlaces)
       (SFsub prec emax value (float_of_int intPart))
   else ret tt)%cmd.

Definition debugPrintFloatln (value : spec_float) (decimalPlaces : Z) : M machine unit :=
  (debugPrintFloat value decimalPlaces ;;
   uart1_print_char "013" ;;
   uart1_print_char "010")%cmd.

(** *** Observations *)

(** The bytes handed to the transmitter, in order. *)
Definition transmitted (m : machine) : list ascii :=
  omap (fun e => match e with
                 | EvStore rUDR1 v => Some (char_of_int v)
                 | _ => None
                 end) (trace m).

(** The stores to [UCSR1B] among the events [t]. *)
Definition ucsr1b_stores (t : list event) : list Z :=
  omap (fun e => match e with EvStore rUCSR1B v => Some v | _ => None end) t.

(** One call of [uart1_print_char] per byte of [l]. *)
Fixpoint emit_all (l : list ascii) : M machine unit :=
  match l with
  | [] => ret tt
  | c :: rest => (uart1_print_char c ;; emit_all rest)%cmd
  end.

(** The state after reset: registers at their reset values, interrupts
    disabled, the static buffer zeroed. *)
Definition power_on : machine :=
  mkMachine 0 0 32 0 6 false (mkRing (replicate (Z.to_nat DEBUG_BUFFER_SIZE) zero) 0 0) [].

(** The handler runs [n] times. *)
Fixpoint drain (n : nat) : M machine unit :=
  match n with
  | O => ret tt
  | S n' => (ISR_USART1_UDRE_vect ;; drain n')%cmd
  end.


(** *** The operations that touch the interrupt enable bits *)

Inductive action :=
| Begin (F_CPU debugBaud : Z)    (* debugSerialBegin *)
| Emit (data : ascii)            (* uart1_print_char *)
| Drain.                         (* the interrupt handler *)

Definition perform (a : action) : M machine unit :=
  match a with
  | Begin f b => debugSerialBegin f b
  | Emit c => uart1_print_char c
  | Drain => ISR_USART1_UDRE_vect
  end.

(** A buffer with zeroed storage, as the static [debugTxBuffer] is at start. *)
Definition zeroed_buffer (SIZE : Z) : debugRingBuffer_t :=
  mkRing (replicate (Z.to_nat SIZE) zero) 0 0.

(** The usual start of a program: reset, then [debugSerialBegin(9600)] at
    16 MHz. *)
Definition started : machine := exec (debugSerialBegin 16000000 9600) power_on.

(** *** Streams, interleavings and decimal text *)

(** The text of a C string: the characters before the first NUL. *)
Fixpoint c_text (str : string) : list ascii :=
  match str with
  | EmptyString => []
  | String c rest => if Ascii.eqb c zero then [] else c :: c_text rest
  end.

(** What the line has carried and is still to carry: the bytes sent, then
    the bytes queued. *)
Definition stream (m : machine) : list ascii :=
  transmitted m ++ pending DEBUG_BUFFER_SIZE (debugTxBuffer m).

(** The buffer of the machine has its cursors in range and all its slots. *)
Definition tx_ok (m : machine) : Prop :=
  cursors_in_range DEBUG_BUFFER_SIZE (debugTxBuffer m)
  /\ storage_fits DEBUG_BUFFER_SIZE (debugTxBuffer m).

(** Foreground calls and handler runs, in the order they happen. *)
Fixpoint run_actions (acts : list action) : M machine unit :=
  match acts with
  | [] => ret tt
  | a :: rest => (perform a ;; run_actions rest)%cmd
  end.

(** The bytes of the [Emit]s that find room in the buffer. *)
Fixpoint accepted (acts : list action) (m : machine) : list ascii :=
  match acts with
  | [] => []
  | a :: rest =>
      match a with
      | Emit c =>
          if eval (debug_buffer_is_full DEBUG_BUFFER_SIZE) (debugTxBuffer m)
          then [] else [c]
      | _ => []
      end ++ accepted rest (exec (perform a) m)
  end.

Definition no_begin (acts : list action) : bool :=
  forallb (fun a => match a with Begin _ _ => false | _ => true end) acts.

Definition is_digit (c : ascii) : Prop := 48 <= int_of_char c <= 57.

(** The number a decimal text denotes, most significant digit first. *)
Definition parse_decimal (l : list ascii) : Z :=
  fold_left (fun acc c => 10 * acc + (int_of_char c - 48)) l 0.

(** The same with the least significant digit first. *)
Fixpoint lsd_value (l : list ascii) : Z :=
  match l with
  | [] => 0
  | c :: rest => (int_of_char c - 48) + 10 * lsd_value rest
  end.

(** *** Signed overflow

    C++ gives no meaning to a signed negation whose result does not fit the
    type. This is [debugPrintInt] with that rule applied to [value = -value]
    (and to a store outside [digits]): [None] stands for undefined
    behaviour, [Some tt] for a normal return. *)
Definition debugPrintInt_checked (value : Z) : M machine (option unit) :=
  (let* negated :=
     (if value <? 0 then
        (uart1_print_char "-" ;;
         ret (if (INT32_MIN <=? - value) && (- value <=? INT32_MAX)
              then Some (- value) else None))
      else ret (Some value)) in
   match negated with
   | None => ret None
   | Some value =>
       if value =? 0 then (uart1_print_char "0" ;; ret (Some tt))
       else
         match extract_digits (loop_fuel value) value (replicate 10 zero) 0 with
         | Done (digits, count) => (emit_digits digits (Z.to_nat count) ;; ret (Some tt))
         | OutOfBounds | OutOfFuel => ret None
         end
   end)%cmd.

(** *** [debugSerialBegin] with the handler running in between

    [debugSerialBegin] does not disable interrupts, so the handler can run
    between any two of its register and memory accesses; each of these is a
    single 8-bit access. [debug_buffer_init] is two stores. *)

Definition clear_head : M debugRingBuffer_t unit := fun buf =>
  (tt, {| debugBuffer := debugBuffer buf; debugHead := 0; debugTail := debugTail buf |}).

Definition clear_tail : M debugRingBuffer_t unit := fun buf =>
  (tt, {| debugBuffer := debugBuffer buf; debugHead := debugHead buf; debugTail := 0 |}).

(** [irq k] is the number of times the handler runs before the [k]-th
    access of the call. (The hardware runs it only while the interrupt is
    enabled; allowing it always covers every case.) *)
Definition debugSerialBegin_preempted (F_CPU debugBaud : Z) (irq : nat -> nat)
  : M machine unit :=
  (let ubrr := uint16 (uint32 (Z.quot (uint32 F_CPU) (uint32 (8 * uint32 debugBaud)) - 1)) in
   drain (irq 0%nat) ;;
   store rUBRR1H (Z.shiftr ubrr 8) ;;
   drain (irq 1%nat) ;;
   store rUBRR1L ubrr ;;
   drain (irq 2%nat) ;;
   let* a := load rUCSR1A in
   drain (irq 3%nat) ;;
   store rUCSR1A (Z.lor a (Z.shiftl 1 U2X1)) ;;
   drain (irq 4%nat) ;;
   store rUCSR1B (Z.lor (Z.shiftl 1 TXEN1) (Z.shiftl 1 UDRIE1)) ;;
   drain (irq 5%nat) ;;
   store rUCSR1C (Z.lor (Z.shiftl 1 UCSZ11) (Z.shiftl 1 UCSZ10)) ;;
   drain (irq 6%nat) ;;
   on_tx clear_head ;;
   drain (irq 7%nat) ;;
   on_tx clear_tail)%cmd.

(** * Properties *)

(** ** Arithmetic of the cursors *)

Lemma uint8_small x : 0 <= x < 256 -> uint8 x = x.
Proof. intros H. unfold uint8. apply Z.mod_small. lia. Qed.

Lemma wrap_cases n x :
  0 < n -> 0 <= x < 2 * n -> x mod n = if x <? n then x else x - n.
Proof.
  intros Hn Hx. destruct (Z.ltb_spec x n).
  - apply Z.mod_small. lia.
  - symmetry. apply (Z.mod_unique_pos x n 1); lia.
Qed.

Lemma wrap_neg_cases n x :
  0 < n -> - n <= x < n -> x mod n = if x <? 0 then x + n else x.
Proof.
  intros Hn Hx. destruct (Z.ltb_spec x 0).
  - symmetry. apply (Z.mod_unique_pos x n (-1)); lia.
  - apply Z.mod_small. lia.
Qed.

Section RingBufferFacts.

Variable SIZE : Z.
Hypothesis SIZE_pos : 0 < SIZE.

Lemma next_cursor x :
  0 <= x < SIZE -> Z.rem (x + 1) SIZE = (x + 1) mod SIZE.
Proof. intros H. apply Z.rem_mod_nonneg; lia. Qed.

Lemma next_cursor_range x :
  0 <= x < SIZE -> 0 <= uint8 (Z.rem (x + 1) SIZE) < SIZE.
Proof.
  intros H. rewrite next_cursor by done.
  pose proof (Z.mod_pos_bound (x + 1) SIZE SIZE_pos) as Hb.
  unfold uint8. split; [apply Z.mod_pos_bound; lia|].
  eapply Z.le_lt_trans; [apply Z.mod_le; lia | lia].
Qed.

Lemma next_cursor_u8 x :
  SIZE <= 256 -> 0 <= x < SIZE -> uint8 (Z.rem (x + 1) SIZE) = (x + 1) mod SIZE.
Proof.
  intros Hs H. rewrite next_cursor by done.
  pose proof (Z.mod_pos_bound (x + 1) SIZE SIZE_pos).
  apply uint8_small. lia.
Qed.

(** *** What each operation does *)

Lemma is_full_spec buf :
  cursors_in_range SIZE buf ->
  eval (debug_buffer_is_full SIZE) buf = true
  <-> (debugHead buf + 1) mod SIZE = debugTail buf.
Proof.
  intros [Hh _]. unfold eval, debug_buffer_is_full. simpl.
  rewrite next_cursor by done. apply Z.eqb_eq.
Qed.

Lemma is_empty_spec buf :
  eval debug_buffer_is_empty buf = true <-> debugHead buf = debugTail buf.
Proof. unfold eval, debug_buffer_is_empty. simpl. apply Z.eqb_eq. Qed.

Lemma put_when_full buf c :
  eval (debug_buffer_is_full SIZE) buf = true ->
  debug_buffer_put SIZE c buf = (tt, buf).
Proof.
  unfold eval, debug_buffer_put, debug_buffer_is_full, bind. simpl.
  intros ->. reflexivity.
Qed.

Lemma put_when_room buf c :
  eval (debug_buffer_is_full SIZE) buf = false ->
  debug_buffer_put SIZE c buf =
    (tt, mkRing (<[Z.to_nat (debugHead buf) := c]> (debugBuffer buf))
                (uint8 (Z.rem (debugHead buf + 1) SIZE))
                (debugTail buf)).
Proof.
  unfold eval, debug_buffer_put, debug_buffer_is_full, bind. simpl.
  intros ->. reflexivity.
Qed.

Lemma get_when_empty buf :
  eval debug_buffer_is_empty buf = true ->
  debug_buffer_get SIZE buf = (None, buf).
Proof.
  unfold eval, debug_buffer_get, debug_buffer_is_empty, bind. simpl.
  intros ->. reflexivity.
Qed.

Lemma get_when_data buf :
  eval debug_buffer_is_empty buf = false ->
  debug_buffer_get SIZE buf =
    (Some (nth (Z.to_nat (debugTail buf)) (debugBuffer buf) zero),
     mkRing (debugBuffer buf) (debugHead buf)
            (uint8 (Z.rem (debugTail buf + 1) SIZE))).
Proof.
  unfold eval, debug_buffer_get, debug_buffer_is_empty, bind. simpl.
  intros ->. reflexivity.
Qed.

(** *** The invariant *)

Lemma init_in_range buf : cursors_in_range SIZE (exec debug_buffer_init buf).
Proof. unfold cursors_in_range, exec, debug_buffer_init. simpl. lia. Qed.

Lemma put_in_range buf c :
  cursors_in_range SIZE buf -> cursors_in_range SIZE (exec (debug_buffer_put SIZE c) buf).
Proof.
  intros Hr. unfold exec.
  destruct (eval (debug_buffer_is_full SIZE) buf) eqn:Hf.
  - rewrite put_when_full by done. exact Hr.
  - rewrite put_when_room by done. destruct Hr as [Hh Ht].
    split; simpl; [apply next_cursor_range; done | done].
Qed.

Lemma get_in_range buf :
  cursors_in_range SIZE buf -> cursors_in_range SIZE (exec (debug_buffer_get SIZE) buf).
Proof.
  intros Hr. unfold exec.
  destruct (eval debug_buffer_is_empty buf) eqn:He.
  - rewrite get_when_empty by done. exact Hr.
  - rewrite get_when_data by done. destruct Hr as [Hh Ht].
    split; simpl; [done | apply next_cursor_range; done].
Qed.

Lemma reachable_in_range buf : reachable SIZE buf -> cursors_in_range SIZE buf.
Proof.
  induction 1 as [b | b _ IH | b _ IH | b c _ IH | b _ IH].
  - apply init_in_range.
  - exact IH.
  - exact IH.
  - apply put_in_range, IH.
  - apply get_in_range, IH.
Qed.

Lemma put_fits buf c :
  storage_fits SIZE buf -> storage_fits SIZE (exec (debug_buffer_put SIZE c) buf).
Proof.
  intros Hs. unfold exec.
  destruct (eval (debug_buffer_is_full SIZE) buf) eqn:Hf.
  - rewrite put_when_full by done. exact Hs.
  - rewrite put_when_room by done. unfold storage_fits in *. simpl.
    rewrite length_insert. exact Hs.
Qed.

Lemma get_fits buf :
  storage_fits SIZE buf -> storage_fits SIZE (exec (debug_buffer_get SIZE) buf).
Proof.
  intros Hs. unfold exec.
  destruct (eval debug_buffer_is_empty buf) eqn:He.
  - rewrite get_when_empty by done. exact Hs.
  - rewrite get_when_data by done. exact Hs.
Qed.

Lemma not_empty_and_full buf :
  1 < SIZE -> cursors_in_range SIZE buf ->
  ~ (eval debug_buffer_is_empty buf = true
     /\ eval (debug_buffer_is_full SIZE) buf = true).
Proof.
  intros H1 Hr [He Hf].
  apply is_empty_spec in He. apply is_full_spec in Hf; [|done].
  destruct Hr as [Hh Ht].
  rewrite wrap_cases in Hf by lia.
  destruct (Z.ltb_spec (debugHead buf + 1) SIZE); lia.
Qed.

End RingBufferFacts.

(** ** The buffer as a queue *)

Section Fifo.

Variable SIZE : Z.
Hypothesis SIZE_pos : 0 < SIZE.
Hypothesis SIZE_u8 : SIZE <= 256.

(** Storing at the slot the walk would reach next appends to the walk. *)
Lemma walk_store st h c :
  0 <= h < SIZE -> (Z.to_nat h < length st)%nat ->
  forall n t,
    0 <= t < SIZE -> Z.of_nat n < SIZE -> (t + Z.of_nat n) mod SIZE = h ->
    walk SIZE (<[Z.to_nat h := c]> st) (S n) t = walk SIZE st n t ++ [c].
Proof.
  intros Hh Hlen. induction n as [|n IH]; intros t Ht Hn Hreach.
  - rewrite Z.add_0_r, Z.mod_small in Hreach by lia. subst t. simpl.
    rewrite nth_lookup, list_lookup_insert_eq by done. reflexivity.
  - change (walk SIZE (<[Z.to_nat h := c]> st) (S (S n)) t)
      with (nth (Z.to_nat t) (<[Z.to_nat h := c]> st) zero
            :: walk SIZE (<[Z.to_nat h := c]> st) (S n) ((t + 1) mod SIZE)).
    assert (t <> h) as Hne.
    { intros ->. rewrite wrap_cases in Hreach by lia.
      destruct (Z.ltb_spec (h + Z.of_nat (S n)) SIZE); lia. }
    rewrite IH.
    + simpl. f_equal. rewrite !nth_lookup, list_lookup_insert_ne by lia. reflexivity.
    + apply Z.mod_pos_bound. lia.
    + lia.
    + rewrite Z.add_mod_idemp_l by lia. rewrite <- Hreach. f_equal. lia.
Qed.

Lemma occupancy_room buf :
  cursors_in_range SIZE buf ->
  eval (debug_buffer_is_full SIZE) buf = false ->
  0 <= occupancy SIZE buf < SIZE - 1
  /\ ((debugHead buf + 1) mod SIZE - debugTail buf) mod SIZE = occupancy SIZE buf + 1.
Proof.
  intros Hr Hf. pose proof Hr as [Hh Ht].
  assert ((debugHead buf + 1) mod SIZE <> debugTail buf) as Hne.
  { intros E. apply (is_full_spec SIZE SIZE_pos buf Hr) in E. congruence. }
  unfold occupancy.
  rewrite (wrap_cases SIZE (debugHead buf + 1)) in * by lia.
  rewrite (wrap_neg_cases SIZE (debugHead buf - debugTail buf)) by lia.
  destruct (Z.ltb_spec (debugHead buf + 1) SIZE);
    destruct (Z.ltb_spec (debugHead buf - debugTail buf) 0);
    rewrite wrap_neg_cases by lia;
    match goal with |- context [?a <? 0] => destruct (Z.ltb_spec a 0) end; lia.
Qed.

Lemma occupancy_data buf :
  cursors_in_range SIZE buf ->
  eval debug_buffer_is_empty buf = false ->
  0 < occupancy SIZE buf
  /\ (debugHead buf - (debugTail buf + 1) mod SIZE) mod SIZE = occupancy SIZE buf - 1.
Proof.
  intros [Hh Ht] He.
  assert (debugHead buf <> debugTail buf) as Hne.
  { intros E. apply is_empty_spec in E. congruence. }
  unfold occupancy.
  rewrite (wrap_cases SIZE (debugTail buf + 1)) by lia.
  rewrite (wrap_neg_cases SIZE (debugHead buf - debugTail buf)) by lia.
  destruct (Z.ltb_spec (debugTail buf + 1) SIZE);
    destruct (Z.ltb_spec (debugHead buf - debugTail buf) 0);
    rewrite wrap_neg_cases by lia;
    match goal with |- context [?a <? 0] => destruct (Z.ltb_spec a 0) end; lia.
Qed.

Lemma pending_init buf : pending SIZE (exec debug_buffer_init buf) = [].
Proof.
  unfold pending, occupancy, exec, debug_buffer_init. reflexivity.
Qed.

Lemma pending_empty buf :
  eval debug_buffer_is_empty buf = true -> pending SIZE buf = [].
Proof.
  intros He. apply is_empty_spec in He. unfold pending, occupancy.
  rewrite He, Z.sub_diag, Z.mod_0_l by lia. reflexivity.
Qed.

Lemma pending_put buf c :
  cursors_in_range SIZE buf -> storage_fits SIZE buf ->
  eval (debug_buffer_is_full SIZE) buf = false ->
  pending SIZE (exec (debug_buffer_put SIZE c) buf) = pending SIZE buf ++ [c].
Proof.
  intros Hr Hs Hf. pose proof Hr as [Hh Ht].
  destruct (occupancy_room buf Hr Hf) as [Hocc Hnext].
  unfold exec. rewrite put_when_room by done.
  unfold pending at 1. unfold occupancy at 1. simpl.
  rewrite next_cursor_u8 by done. rewrite Hnext.
  replace (Z.to_nat (occupancy SIZE buf + 1)) with (S (Z.to_nat (occupancy SIZE buf))) by lia.
  unfold storage_fits in Hs.
  apply walk_store; try lia.
  unfold occupancy. rewrite Z2Nat.id by (apply Z.mod_pos_bound; lia).
  rewrite Z.add_mod_idemp_r by lia.
  replace (debugTail buf + (debugHead buf - debugTail buf)) with (debugHead buf) by lia.
  apply Z.mod_small. lia.
Qed.

Lemma pending_get buf :
  cursors_in_range SIZE buf ->
  eval debug_buffer_is_empty buf = false ->
  exists c,
    eval (debug_buffer_get SIZE) buf = Some c
    /\ pending SIZE buf = c :: pending SIZE (exec (debug_buffer_get SIZE) buf).
Proof.
  intros Hr He. pose proof Hr as [Hh Ht].
  destruct (occupancy_data buf Hr He) as [Hocc Hnext].
  unfold exec, eval. rewrite get_when_data by done. simpl.
  eexists. split; [reflexivity|].
  unfold pending at 2. unfold occupancy. simpl.
  rewrite next_cursor_u8 by done. rewrite Hnext.
  unfold pending.
  replace (Z.to_nat (occupancy SIZE buf)) with (S (Z.to_nat (occupancy SIZE buf - 1))) by lia.
  reflexivity.
Qed.

(** What went in is what came out followed by what is still queued. *)
Lemma run_calls_queue calls :
  forall buf,
    cursors_in_range SIZE buf -> storage_fits SIZE buf ->
    in_capacity SIZE calls buf = true ->
    pending SIZE buf ++ puts_of calls
    = eval (run_calls SIZE calls) buf ++ pending SIZE (exec (run_calls SIZE calls) buf)
    /\ length (eval (run_calls SIZE calls) buf) = gets_in calls.
Proof.
  induction calls as [|[c|] rest IH]; intros buf Hr Hs Hcap.
  - unfold eval, exec. simpl. rewrite app_nil_r. done.
  - simpl in Hcap. apply andb_prop in Hcap as [Hf Hcap].
    apply negb_true_iff in Hf.
    destruct (IH _ (put_in_range SIZE SIZE_pos buf c Hr) (put_fits SIZE buf c Hs) Hcap)
      as [IHq IHn].
    rewrite pending_put in IHq by done.
    unfold eval, exec in *. simpl. unfold bind.
    destruct (debug_buffer_put SIZE c buf) as [[] b1]. simpl in *.
    split; [|exact IHn].
    rewrite <- IHq, <- app_assoc. reflexivity.
  - simpl in Hcap. apply andb_prop in Hcap as [He Hcap].
    apply negb_true_iff in He.
    destruct (IH _ (get_in_range SIZE SIZE_pos buf Hr) (get_fits SIZE buf Hs) Hcap)
      as [IHq IHn].
    destruct (pending_get buf Hr He) as (c & Hc & Hp).
    rewrite Hp. unfold eval, exec in *. simpl. unfold bind.
    destruct (debug_buffer_get SIZE buf) as [r b1]. simpl in *. subst r.
    destruct (run_calls SIZE rest b1) as [out b2]. simpl in *.
    unfold puts_of in *. simpl. split; [|by rewrite IHn].
    f_equal. exact IHq.
Qed.

End Fifo.

(** ** Filling the buffer *)

Lemma exec_run_put SIZE c rest buf :
  exec (run_calls SIZE (Put c :: rest)) buf
  = exec (run_calls SIZE rest) (exec (debug_buffer_put SIZE c) buf).
Proof.
  unfold exec. simpl. unfold bind.
  destruct (debug_buffer_put SIZE c buf) as [[] b1]. reflexivity.
Qed.

Lemma fill_from SIZE (bytes : list ascii) :
  0 < SIZE <= 256 ->
  forall buf,
    0 <= debugHead buf -> debugTail buf = 0 ->
    debugHead buf + Z.of_nat (length bytes) <= SIZE - 1 ->
    in_capacity SIZE (map Put bytes) buf = true
    /\ debugHead (exec (run_calls SIZE (map Put bytes)) buf)
       = debugHead buf + Z.of_nat (length bytes)
    /\ debugTail (exec (run_calls SIZE (map Put bytes)) buf) = 0.
Proof.
  intros HS. induction bytes as [|c bytes IH]; intros buf Hh Ht Hlen.
  - unfold exec. simpl. repeat split; [lia | done].
  - simpl length in Hlen.
    assert (cursors_in_range SIZE buf) as Hr by (unfold cursors_in_range; lia).
    assert (eval (debug_buffer_is_full SIZE) buf = false) as Hf.
    { apply not_true_is_false. intros E.
      apply (is_full_spec SIZE) in E; [|lia|done].
      rewrite Z.mod_small in E by lia. lia. }
    assert (debugHead (exec (debug_buffer_put SIZE c) buf) = debugHead buf + 1) as Hh'.
    { unfold exec. rewrite put_when_room by done. simpl.
      rewrite next_cursor_u8 by lia. apply Z.mod_small. lia. }
    assert (debugTail (exec (debug_buffer_put SIZE c) buf) = 0) as Ht'.
    { unfold exec. rewrite put_when_room by done. simpl. done. }
    destruct (IH (exec (debug_buffer_put SIZE c) buf)) as (I1 & I2 & I3); [lia | done | lia |].
    simpl map. rewrite exec_run_put. simpl in_capacity.
    rewrite Hf, I1, I2, I3, Hh'. simpl length. repeat split; lia.
Qed.

(** ** The claims about the ring buffer *)

(** C1. Started from an initialised buffer, a sequence of [put] and [get]
    calls in which no [put] meets a full buffer and no [get] an empty one
    returns from its [get]s the bytes given to its [put]s, in the same order:
    every [get] returns a byte, the bytes returned are the first of the bytes
    put, the rest being the bytes still queued, and they are all of them once
    the buffer is empty again. *)
Theorem ring_buffer_fifo (SIZE : Z) (buf0 : debugRingBuffer_t) (calls : list rb_call) :
  0 < SIZE <= 256 ->
  storage_fits SIZE buf0 ->
  in_capacity SIZE calls (exec debug_buffer_init buf0) = true ->
  let returned := eval (run_calls SIZE calls) (exec debug_buffer_init buf0) in
  let final := exec (run_calls SIZE calls) (exec debug_buffer_init buf0) in
  length returned = gets_in calls
  /\ returned = take (length returned) (puts_of calls)
  /\ puts_of calls = returned ++ pending SIZE final
  /\ (eval debug_buffer_is_empty final = true -> returned = puts_of calls).
Proof.
  intros [Hpos Hu8] Hfit Hcap returned final.
  destruct (run_calls_queue SIZE Hpos Hu8 calls (exec debug_buffer_init buf0))
    as [Hq Hn]; [apply init_in_range; done | exact Hfit | exact Hcap |].
  rewrite pending_init in Hq. simpl in Hq. fold returned final in Hq, Hn.
  repeat split.
  - exact Hn.
  - rewrite Hq. symmetry. apply take_app_length.
  - exact Hq.
  - intros He. rewrite Hq, (pending_empty SIZE Hpos final He), app_nil_r. reflexivity.
Qed.

Lemma ring_buffer_fifo_witness :
  let calls := [Put "a"; Put "b"; Get; Put "c"; Get; Get]%char in
  let buf0 := zeroed_buffer 100 in
  let returned := eval (run_calls 100 calls) (exec debug_buffer_init buf0) in
  let final := exec (run_calls 100 calls) (exec debug_buffer_init buf0) in
  (0 < 100 <= 256)
  /\ storage_fits 100 buf0
  /\ in_capacity 100 calls (exec debug_buffer_init buf0) = true
  /\ (length returned = gets_in calls
      /\ returned = take (length returned) (puts_of calls)
      /\ puts_of calls = returned ++ pending 100 final
      /\ (eval debug_buffer_is_empty final = true -> returned = puts_of calls)).
Proof.
  intros calls buf0.
  assert (H1 : 0 < 100 <= 256) by lia.
  assert (H2 : storage_fits 100 buf0) by reflexivity.
  assert (H3 : in_capacity 100 calls (exec debug_buffer_init buf0) = true) by reflexivity.
  exact (conj H1 (conj H2 (conj H3 (ring_buffer_fifo 100 buf0 calls H1 H2 H3)))).
Defined.

(** C2, as the code has it. [debug_buffer_put] returns nothing. Started from
    an initialised buffer of capacity [SIZE], [SIZE - 1] puts each meet a
    buffer that is not full; after them [is_full] is true and a further put
    leaves head, tail and storage as they are. A put on a buffer that is not
    full stores the byte at [storage[head]], leaves the other slots and the
    tail alone and advances head to [(head + 1) mod SIZE]. *)
Theorem put_capacity (SIZE : Z) (buf0 : debugRingBuffer_t) (bytes : list ascii) :
  0 < SIZE <= 256 ->
  Z.of_nat (length bytes) = SIZE - 1 ->
  let filled := exec (run_calls SIZE (map Put bytes)) (exec debug_buffer_init buf0) in
  in_capacity SIZE (map Put bytes) (exec debug_buffer_init buf0) = true
  /\ eval (debug_buffer_is_full SIZE) filled = true
  /\ (forall c, debug_buffer_put SIZE c filled = (tt, filled))
  /\ (forall buf c,
        cursors_in_range SIZE buf -> storage_fits SIZE buf ->
        eval (debug_buffer_is_full SIZE) buf = false ->
        debug_buffer_put SIZE c buf
        = (tt, mkRing (<[Z.to_nat (debugHead buf) := c]> (debugBuffer buf))
                      ((debugHead buf + 1) mod SIZE) (debugTail buf))
        /\ <[Z.to_nat (debugHead buf) := c]> (debugBuffer buf) !! Z.to_nat (debugHead buf)
           = Some c).
Proof.
  intros HS Hlen filled.
  destruct (fill_from SIZE bytes HS (exec debug_buffer_init buf0)) as (F1 & F2 & F3);
    [simpl; lia | reflexivity | simpl; lia |].
  fold filled in F2, F3. simpl in F2.
  assert (eval (debug_buffer_is_full SIZE) filled = true) as Hfull.
  { unfold eval, debug_buffer_is_full. simpl. rewrite F2, F3, Hlen.
    replace (0 + (SIZE - 1) + 1) with SIZE by lia.
    rewrite Z.rem_same by lia. reflexivity. }
  split; [exact F1|]. split; [exact Hfull|]. split.
  - intros c. apply put_when_full. exact Hfull.
  - intros buf c [Hh _] Hs Hf. split.
    + rewrite put_when_room by exact Hf.
      rewrite next_cursor_u8 by lia. reflexivity.
    + unfold storage_fits in Hs. apply list_lookup_insert_eq. lia.
Qed.

Lemma put_capacity_witness :
  let bytes := replicate 99 "x"%char in
  let filled := exec (run_calls 100 (map Put bytes)) (exec debug_buffer_init (zeroed_buffer 100)) in
  (0 < 100 <= 256)
  /\ Z.of_nat (length bytes) = 100 - 1
  /\ eval (debug_buffer_is_full 100) filled = true
  /\ debug_buffer_put 100 "y" filled = (tt, filled).
Proof.
  intros bytes filled.
  assert (H1 : 0 < 100 <= 256) by lia.
  assert (H2 : Z.of_nat (length bytes) = 100 - 1) by reflexivity.
  pose proof (put_capacity 100 (zeroed_buffer 100) bytes H1 H2) as (_ & Hfull & Hdrop & _).
  exact (conj H1 (conj H2 (conj Hfull (Hdrop "y"%char)))).
Defined.

(** C2 as stated fails: the code's [put] is a [void] function, so nothing
    computed from what it returns tells a dropped byte from a stored one. *)
Lemma put_returns_no_flag :
  let room := exec debug_buffer_init (zeroed_buffer DEBUG_BUFFER_SIZE) in
  let full :=
    exec (run_calls DEBUG_BUFFER_SIZE (map Put (replicate 99 "a"%char))) room in
  eval (debug_buffer_is_full DEBUG_BUFFER_SIZE) room = false
  /\ eval (debug_buffer_is_full DEBUG_BUFFER_SIZE) full = true
  /\ ~ (exists flag : unit -> bool,
          flag (eval (debug_buffer_put DEBUG_BUFFER_SIZE "b") room) = true
          /\ flag (eval (debug_buffer_put DEBUG_BUFFER_SIZE "b") full) = false).
Proof.
  intros room full. split; [reflexivity|]. split; [reflexivity|].
  intros (flag & Ht & Hf).
  destruct (eval (debug_buffer_put DEBUG_BUFFER_SIZE "b") room).
  destruct (eval (debug_buffer_put DEBUG_BUFFER_SIZE "b") full).
  congruence.
Qed.

(** C3. With a positive capacity, [0 <= head < SIZE] and [0 <= tail < SIZE]
    hold after [init] and are kept by [init], [is_empty], [is_full], [put]
    and [get]; in every reachable state [is_empty] is true exactly when
    [head = tail], [is_full] exactly when [(head + 1) mod SIZE = tail], and
    for a capacity above 1 they are not both true. *)
Theorem cursor_invariant (SIZE : Z) :
  0 < SIZE ->
  (forall buf, cursors_in_range SIZE (exec debug_buffer_init buf))
  /\ (forall buf,
        cursors_in_range SIZE buf ->
        cursors_in_range SIZE (exec debug_buffer_init buf)
        /\ cursors_in_range SIZE (exec debug_buffer_is_empty buf)
        /\ cursors_in_range SIZE (exec (debug_buffer_is_full SIZE) buf)
        /\ (forall c, cursors_in_range SIZE (exec (debug_buffer_put SIZE c) buf))
        /\ cursors_in_range SIZE (exec (debug_buffer_get SIZE) buf))
  /\ (forall buf,
        reachable SIZE buf ->
        cursors_in_range SIZE buf
        /\ (eval debug_buffer_is_empty buf = true <-> debugHead buf = debugTail buf)
        /\ (eval (debug_buffer_is_full SIZE) buf = true
            <-> (debugHead buf + 1) mod SIZE = debugTail buf)
        /\ (1 < SIZE ->
            ~ (eval debug_buffer_is_empty buf = true
               /\ eval (debug_buffer_is_full SIZE) buf = true))).
Proof.
  intros Hpos. split; [|split].
  - intros buf. apply init_in_range. exact Hpos.
  - intros buf Hr.
    split; [apply init_in_range; exact Hpos|].
    split; [exact Hr|]. split; [exact Hr|].
    split; [intros c; apply put_in_range; done | apply get_in_range; done].
  - intros buf Hreach.
    pose proof (reachable_in_range SIZE Hpos buf Hreach) as Hr.
    split; [exact Hr|]. split; [apply is_empty_spec|].
    split; [apply is_full_spec; done|].
    intros H1. apply not_empty_and_full; done.
Qed.

Lemma cursor_invariant_witness :
  let buf := exec (debug_buffer_put 100 "a") (exec debug_buffer_init (zeroed_buffer 100)) in
  0 < 100
  /\ cursors_in_range 100 buf
  /\ (eval debug_buffer_is_empty buf = true <-> debugHead buf = debugTail buf)
  /\ (eval (debug_buffer_is_full 100) buf = true
      <-> (debugHead buf + 1) mod 100 = debugTail buf)
  /\ (1 < 100 ->
      ~ (eval debug_buffer_is_empty buf = true
         /\ eval (debug_buffer_is_full 100) buf = true)).
Proof.
  intros buf.
  assert (H1 : 0 < 100) by lia.
  exact (conj H1
           (proj2 (proj2 (cursor_invariant 100 H1)) buf
              (reach_put 100 _ "a"%char (reach_init 100 (zeroed_buffer 100))))).
Defined.

(** C9. A [get] on an empty buffer returns failure and leaves head, tail
    and the storage as they were. *)
Theorem get_on_empty (SIZE : Z) (buf : debugRingBuffer_t) :
  eval debug_buffer_is_empty buf = true ->
  debug_buffer_get SIZE buf = (None, buf).
Proof.
  intros He. unfold debug_buffer_get, bind.
  unfold eval in He. destruct (debug_buffer_is_empty buf) as [e b] eqn:E.
  unfold debug_buffer_is_empty in E. injection E as E1 E2. subst b.
  simpl in He. subst e. rewrite He. reflexivity.
Qed.

Lemma get_on_empty_witness :
  let buf := exec debug_buffer_init (zeroed_buffer 100) in
  eval debug_buffer_is_empty buf = true
  /\ debug_buffer_get 100 buf = (None, buf).
Proof.
  intros buf.
  assert (H1 : eval debug_buffer_is_empty buf = true) by reflexivity.
  exact (conj H1 (get_on_empty 100 buf H1)).
Defined.

(** ** The driver and the interrupt enable bits *)

Lemma udrie1_set b : Z.testbit (uint8 (Z.lor b (Z.shiftl 1 UDRIE1))) UDRIE1 = true.
Proof.
  unfold uint8. rewrite Z.mod_pow2_bits_low by (unfold UDRIE1; lia).
  rewrite Z.lor_spec. apply orb_true_r.
Qed.

Lemma udrie1_cleared b :
  Z.testbit (uint8 (Z.land b (Z.lnot (Z.shiftl 1 UDRIE1)))) UDRIE1 = false.
Proof.
  unfold uint8. rewrite Z.mod_pow2_bits_low by (unfold UDRIE1; lia).
  rewrite Z.land_spec. apply andb_false_r.
Qed.

(** The whole effect of one call of [uart1_print_char]. *)
Lemma uart1_print_char_effect data m :
  let was_empty := eval debug_buffer_is_empty (debugTxBuffer m) in
  let b := uint8 (Z.lor (UCSR1B m) (Z.shiftl 1 UDRIE1)) in
  uart1_print_char data m
  = (tt, mkMachine (UBRR1H m) (UBRR1L m) (UCSR1A m)
           (if was_empty then b else UCSR1B m) (UCSR1C m)
           true
           (exec (debug_buffer_put DEBUG_BUFFER_SIZE data) (debugTxBuffer m))
           (trace m ++ EvCli :: (if was_empty then [EvStore rUCSR1B b] else []) ++ [EvSei])).
Proof.
  intros was_empty b. subst was_empty b.
  unfold uart1_print_char, bind, cli, sei, on_tx, load, store, ret, log, eval, exec.
  simpl.
  destruct (debug_buffer_put DEBUG_BUFFER_SIZE data (debugTxBuffer m)) as [[] b1].
  destruct (debugHead (debugTxBuffer m) =? debugTail (debugTxBuffer m)); simpl;
    rewrite <- ?app_assoc; reflexivity.
Qed.

(** The whole effect of one run of the handler. *)
Lemma ISR_effect m :
  ISR_USART1_UDRE_vect m
  = match eval (debug_buffer_get DEBUG_BUFFER_SIZE) (debugTxBuffer m) with
    | Some data =>
        (tt, mkMachine (UBRR1H m) (UBRR1L m) (UCSR1A m) (UCSR1B m) (UCSR1C m) (SREG_I m)
               (exec (debug_buffer_get DEBUG_BUFFER_SIZE) (debugTxBuffer m))
               (trace m ++ [EvStore rUDR1 (uint8 (int_of_char data))]))
    | None =>
        let b := uint8 (Z.land (UCSR1B m) (Z.lnot (Z.shiftl 1 UDRIE1))) in
        (tt, mkMachine (UBRR1H m) (UBRR1L m) (UCSR1A m) b (UCSR1C m) (SREG_I m)
               (exec (debug_buffer_get DEBUG_BUFFER_SIZE) (debugTxBuffer m))
               (trace m ++ [EvStore rUCSR1B b]))
    end.
Proof.
  unfold ISR_USART1_UDRE_vect, bind, on_tx, load, store, ret, log, eval, exec.
  destruct (debug_buffer_get DEBUG_BUFFER_SIZE (debugTxBuffer m)) as [[data|] b1];
    reflexivity.
Qed.

Lemma begin_arms F_CPU debugBaud m :
  armed (exec (debugSerialBegin F_CPU debugBaud) m) = true.
Proof. reflexivity. Qed.

Lemma get_none_empty buf :
  eval (debug_buffer_get DEBUG_BUFFER_SIZE) buf = None ->
  eval debug_buffer_is_empty buf = true.
Proof.
  intros H. destruct (eval debug_buffer_is_empty buf) eqn:E; [reflexivity|].
  unfold eval in H. rewrite get_when_data in H by exact E. discriminate.
Qed.

(** After a call of [uart1_print_char] the buffer is not empty. *)
Lemma emit_leaves_data data m :
  cursors_in_range DEBUG_BUFFER_SIZE (debugTxBuffer m) ->
  eval debug_buffer_is_empty (debugTxBuffer (exec (uart1_print_char data) m)) = false.
Proof.
  intros Hr. unfold exec at 1. rewrite uart1_print_char_effect.
  cbv zeta. cbn [snd debugTxBuffer].
  assert (0 < DEBUG_BUFFER_SIZE) as Hpos by reflexivity.
  assert (DEBUG_BUFFER_SIZE <= 256) as Hu8 by (unfold DEBUG_BUFFER_SIZE; lia).
  apply not_true_is_false. intros He.
  destruct (eval (debug_buffer_is_full DEBUG_BUFFER_SIZE) (debugTxBuffer m)) eqn:Hf.
  - unfold exec in He. rewrite put_when_full in He by exact Hf. cbn [snd] in He.
    apply (not_empty_and_full DEBUG_BUFFER_SIZE Hpos (debugTxBuffer m));
      [reflexivity | exact Hr | split; assumption].
  - unfold exec in He. rewrite put_when_room in He by exact Hf. cbn [snd] in He.
    apply is_empty_spec in He. cbn [debugHead debugTail] in He.
    destruct Hr as [Hh Ht]. rewrite next_cursor_u8 in He by assumption.
    apply (is_full_spec DEBUG_BUFFER_SIZE Hpos (debugTxBuffer m)) in He;
      [congruence | split; assumption].
Qed.

(** C4, as the code has it. The data-register-empty interrupt goes from
    disabled to enabled only in [debugSerialBegin], which always enables it,
    or in [uart1_print_char] called on an empty buffer; a call of
    [uart1_print_char] on a buffer that is not empty stores nothing to
    [UCSR1B], so the second of two calls in succession never does. It goes
    from enabled to disabled only in the handler, and only when the handler
    finds the buffer empty. *)
Theorem udrie1_transitions (a : action) (m : machine) :
  let m' := exec (perform a) m in
  (armed m = false /\ armed m' = true ->
     (exists f b, a = Begin f b)
     \/ (exists c, a = Emit c /\ eval debug_buffer_is_empty (debugTxBuffer m) = true))
  /\ (armed m = true /\ armed m' = false ->
      a = Drain /\ eval debug_buffer_is_empty (debugTxBuffer m) = true)
  /\ (forall c,
        a = Emit c /\ eval debug_buffer_is_empty (debugTxBuffer m) = false ->
        ucsr1b_stores (drop (length (trace m)) (trace m')) = []
        /\ UCSR1B m' = UCSR1B m)
  /\ (forall c1 c2,
        cursors_in_range DEBUG_BUFFER_SIZE (debugTxBuffer m) ->
        let m1 := exec (uart1_print_char c1) m in
        let m2 := exec (uart1_print_char c2) m1 in
        ucsr1b_stores (drop (length (trace m1)) (trace m2)) = []
        /\ UCSR1B m2 = UCSR1B m1).
Proof.
  intros m'. subst m'.
  assert (forall c s,
            eval debug_buffer_is_empty (debugTxBuffer s) = false ->
            ucsr1b_stores (drop (length (trace s)) (trace (exec (uart1_print_char c) s))) = []
            /\ UCSR1B (exec (uart1_print_char c) s) = UCSR1B s) as Hquiet.
  { intros c s He. unfold exec. rewrite uart1_print_char_effect.
    cbv zeta. cbn [snd trace UCSR1B]. rewrite He, drop_app_length. done. }
  assert (forall c s,
            eval debug_buffer_is_empty (debugTxBuffer s) = true ->
            armed (exec (uart1_print_char c) s) = true) as Harm.
  { intros c s He. unfold exec. rewrite uart1_print_char_effect.
    cbv zeta. unfold armed. cbn [snd UCSR1B]. rewrite He. apply udrie1_set. }
  split; [|split; [|split]].
  - intros [H1 H2]. destruct a as [f b | c | ]; cbn [perform] in H2.
    + left. eauto.
    + right. exists c. split; [reflexivity|].
      destruct (eval debug_buffer_is_empty (debugTxBuffer m)) eqn:He; [reflexivity|].
      destruct (Hquiet c m He) as [_ Hb]. unfold armed in *. congruence.
    + exfalso. unfold exec in H2. rewrite ISR_effect in H2. unfold armed in *.
      destruct (eval (debug_buffer_get DEBUG_BUFFER_SIZE) (debugTxBuffer m));
        cbv zeta in H2; cbn [snd UCSR1B] in H2.
      * congruence.
      * rewrite udrie1_cleared in H2. discriminate.
  - intros [H1 H2]. destruct a as [f b | c | ]; cbn [perform] in H2.
    + rewrite begin_arms in H2. discriminate.
    + exfalso.
      destruct (eval debug_buffer_is_empty (debugTxBuffer m)) eqn:He.
      * rewrite (Harm c m He) in H2. discriminate.
      * destruct (Hquiet c m He) as [_ Hb]. unfold armed in *. congruence.
    + split; [reflexivity|]. apply get_none_empty.
      unfold exec in H2. rewrite ISR_effect in H2. unfold armed in *.
      destruct (eval (debug_buffer_get DEBUG_BUFFER_SIZE) (debugTxBuffer m));
        cbv zeta in H2; cbn [snd UCSR1B] in H2; [congruence | reflexivity].
  - intros c [Ha He]. subst a. cbn [perform]. apply Hquiet. exact He.
  - intros c1 c2 Hr m1 m2. apply Hquiet. apply emit_leaves_data. exact Hr.
Qed.

(** C4 as stated fails: [debugSerialBegin] takes the interrupt from disabled
    to enabled, and it is not [uart1_print_char]; so from the reset state,
    and so again once the handler has found the buffer empty and disabled
    the interrupt. *)
Lemma begin_arms_from_reset :
  let a := Begin 16000000 9600 in
  let idle := exec ISR_USART1_UDRE_vect started in
  armed power_on = false
  /\ armed (exec (perform a) power_on) = true
  /\ armed idle = false
  /\ armed (exec (perform a) idle) = true
  /\ ~ (exists c, a = Emit c).
Proof.
  intros a idle. repeat (split; [reflexivity|]).
  intros [c H]. discriminate.
Qed.



(** ** Formatting *)

(** Runs a printing routine on an arbitrary machine state: the arithmetic is
    computed, each call of [uart1_print_char] is kept as it is. *)
Ltac run_emits :=
  cbv -[uart1_print_char];
  repeat (match goal with
          | |- context [uart1_print_char ?c ?s] =>
              is_var s; destruct (uart1_print_char c s) as [[] ?]
          end; cbv -[uart1_print_char]);
  reflexivity.

(** *** The digit loop *)

Lemma extract_digits_done fuel value digits count :
  value <= 0 -> extract_digits fuel value digits count = Done (digits, count).
Proof.
  intros Hv. destruct fuel; simpl;
    destruct (Z.gtb_spec value 0); try lia; reflexivity.
Qed.

(** With [fuel] iterations allowed, a value below [10 ^ fuel] and [fuel]
    free slots from [count] on, the loop ends normally, having advanced
    [count] by at most [fuel]. *)
Lemma extract_digits_bound fuel :
  forall value digits count,
    0 <= value < 10 ^ Z.of_nat fuel ->
    0 <= count ->
    count + Z.of_nat fuel <= Z.of_nat (length digits) ->
    count + Z.of_nat fuel <= 255 ->
    exists digits' count',
      extract_digits fuel value digits count = Done (digits', count')
      /\ count <= count' <= count + Z.of_nat fuel
      /\ length digits' = length digits.
Proof.
  induction fuel as [|fuel IH]; intros value digits count Hv Hc Hlen Hu8.
  - exists digits, count. rewrite extract_digits_done by (simpl in Hv; lia).
    repeat split; lia.
  - simpl extract_digits. destruct (Z.gtb_spec value 0) as [Hpos|Hnp].
    + destruct (Nat.ltb_spec (Z.to_nat count) (length digits)) as [_|Hoob]; [|lia].
      rewrite uint8_small by lia.
      destruct (IH (Z.quot value 10)
                  (<[Z.to_nat count := char_of_int (int_of_char "0" + Z.rem value 10)]> digits)
                  (count + 1)) as (d' & c' & He & Hc' & Hl').
      * rewrite Nat2Z.inj_succ, Z.pow_succ_r in Hv by lia.
        split; [apply Z.quot_pos; lia | apply Z.quot_lt_upper_bound; lia].
      * lia.
      * rewrite length_insert. lia.
      * lia.
      * exists d', c'. rewrite He. rewrite length_insert in Hl'. repeat split; lia.
    + exists digits, count. repeat split; lia.
Qed.

(** Fuel that was enough stays enough. *)
Lemma extract_digits_more_fuel fuel :
  forall value digits count extra,
    extract_digits fuel value digits count <> OutOfFuel ->
    extract_digits (fuel + extra) value digits count
    = extract_digits fuel value digits count.
Proof.
  induction fuel as [|fuel IH]; intros value digits count extra Hne.
  - simpl in Hne. destruct (Z.gtb_spec value 0) as [Hpos|Hnp]; [congruence|].
    rewrite !extract_digits_done by lia. reflexivity.
  - simpl in *. destruct (value >? 0); [|reflexivity].
    destruct (Z.to_nat count <? length digits)%nat; [|reflexivity].
    apply IH. exact Hne.
Qed.

Lemma extract_digits_halving fuel :
  forall value digits count,
    value < 2 ^ Z.of_nat fuel ->
    extract_digits fuel value digits count <> OutOfFuel.
Proof.
  induction fuel as [|fuel IH]; intros value digits count Hv.
  - rewrite extract_digits_done by (simpl in Hv; lia). discriminate.
  - simpl. destruct (Z.gtb_spec value 0) as [Hpos|Hnp]; [|discriminate].
    destruct (Z.to_nat count <? length digits)%nat; [|discriminate].
    apply IH. rewrite Nat2Z.inj_succ, Z.pow_succ_r in Hv by lia.
    apply Z.quot_lt_upper_bound; lia.
Qed.

Lemma loop_fuel_enough value digits count :
  extract_digits (loop_fuel value) value digits count <> OutOfFuel.
Proof.
  destruct (Z.leb_spec value 0) as [Hnp|Hpos].
  - rewrite extract_digits_done by exact Hnp. discriminate.
  - apply extract_digits_halving. unfold loop_fuel.
    rewrite Nat2Z.inj_succ, Z2Nat.id by apply Z.log2_nonneg.
    apply Z.log2_spec. exact Hpos.
Qed.

(** The value the digit loop starts from, after the sign has been dealt
    with. *)
Lemma magnitude_range value :
  INT32_MIN <= value <= INT32_MAX ->
  (if value <? 0 then int32 (- value) else value) < 10 ^ 10.
Proof.
  unfold INT32_MIN, INT32_MAX, int32.
  change (2 ^ 31) with 2147483648. change (2 ^ 32) with 4294967296.
  change (10 ^ 10) with 10000000000. intros Hv.
  pose proof (Z.mod_pos_bound (- value + 2147483648) 4294967296).
  destruct (Z.ltb_spec value 0); lia.
Qed.

(** C10. For every 32-bit [value] the digit loop of [debugPrintInt] ends
    normally within ten iterations, with the fuel the model gives it as well
    as with ten units, so every store [digits[count++]] falls inside the ten
    element array and [count] ends at most 10. *)
Theorem digits_in_bounds (value : Z) (digits : list ascii) :
  INT32_MIN <= value <= INT32_MAX ->
  length digits = 10%nat ->
  let v := if value <? 0 then int32 (- value) else value in
  exists digits' count,
    extract_digits 10 v digits 0 = Done (digits', count)
    /\ extract_digits (loop_fuel v) v digits 0 = Done (digits', count)
    /\ 0 <= count <= 10
    /\ length digits' = 10%nat.
Proof.
  intros Hrange Hlen v.
  pose proof (magnitude_range value Hrange) as Hv. fold v in Hv.
  destruct (Z.leb_spec v 0) as [Hnp|Hpos].
  - exists digits, 0. rewrite !extract_digits_done by exact Hnp.
    repeat split; [lia | lia | exact Hlen].
  - destruct (extract_digits_bound 10 v digits 0) as (d' & c' & He & Hc & Hl);
      [change (Z.of_nat 10) with 10; lia | lia | rewrite Hlen; lia | lia |].
    exists d', c'. split; [exact He|]. split.
    + rewrite <- (extract_digits_more_fuel (loop_fuel v) v digits 0 10)
        by apply loop_fuel_enough.
      rewrite Nat.add_comm.
      rewrite extract_digits_more_fuel by (rewrite He; discriminate).
      exact He.
    + split; [lia | congruence].
Qed.

Lemma digits_in_bounds_witness :
  let v := if -6789 <? 0 then int32 (- -6789) else -6789 in
  (INT32_MIN <= -6789 <= INT32_MAX)
  /\ length (replicate 10 zero) = 10%nat
  /\ exists digits' count,
       extract_digits 10 v (replicate 10 zero) 0 = Done (digits', count)
       /\ extract_digits (loop_fuel v) v (replicate 10 zero) 0 = Done (digits', count)
       /\ 0 <= count <= 10
       /\ length digits' = 10%nat.
Proof.
  intros v.
  assert (H1 : INT32_MIN <= -6789 <= INT32_MAX) by (vm_compute; split; discriminate).
  assert (H2 : length (replicate 10 zero) = 10%nat) by reflexivity.
  exact (conj H1 (conj H2 (digits_in_bounds (-6789) (replicate 10 zero) H1 H2))).
Defined.

(** C6. [debugPrintInt] makes exactly the calls of [uart1_print_char] that
    spell the decimal text: "0" for 0, and "-1", "12345", "-6789",
    "2147483647" for -1, 12345, -6789 and 2147483647, the sign first, the
    most significant digit next, no leading zero; once the handler has
    drained the buffer these are the bytes sent. *)
Theorem print_int_examples (m : machine) :
  debugPrintInt 0 m = emit_all (list_ascii_of_string "0") m
  /\ debugPrintInt (-1) m = emit_all (list_ascii_of_string "-1") m
  /\ debugPrintInt 12345 m = emit_all (list_ascii_of_string "12345") m
  /\ debugPrintInt (-6789) m = emit_all (list_ascii_of_string "-6789") m
  /\ debugPrintInt 2147483647 m = emit_all (list_ascii_of_string "2147483647") m
  /\ transmitted (exec (debugPrintInt 0 ;; drain 1)%cmd started)
     = list_ascii_of_string "0"
  /\ transmitted (exec (debugPrintInt (-1) ;; drain 2)%cmd started)
     = list_ascii_of_string "-1"
  /\ transmitted (exec (debugPrintInt 12345 ;; drain 5)%cmd started)
     = list_ascii_of_string "12345"
  /\ transmitted (exec (debugPrintInt (-6789) ;; drain 5)%cmd started)
     = list_ascii_of_string "-6789"
  /\ transmitted (exec (debugPrintInt 2147483647 ;; drain 10)%cmd started)
     = list_ascii_of_string "2147483647".
Proof.
  repeat split; try (vm_compute; reflexivity); run_emits.
Qed.

(** The first loop ends normally on every value it can be given. *)
Lemma extract_digits_runs value digits :
  0 < value < 10 ^ 10 ->
  length digits = 10%nat ->
  exists digits' count,
    extract_digits (loop_fuel value) value digits 0 = Done (digits', count).
Proof.
  intros Hv Hlen.
  destruct (extract_digits_bound 10 value digits 0) as (d' & c' & He & _);
    [change (Z.of_nat 10) with 10; lia | lia | rewrite Hlen; lia | lia |].
  exists d', c'.
  rewrite <- (extract_digits_more_fuel (loop_fuel value) value digits 0 10)
    by apply loop_fuel_enough.
  rewrite Nat.add_comm.
  rewrite extract_digits_more_fuel by (rewrite He; discriminate).
  exact He.
Qed.

(** What [debugPrintInt] does at [INT32_MIN] if the negation is taken
    modulo 2^32 and the loop guard evaluated as written: [- INT32_MIN] is
    [INT32_MIN], the digit loop does not run, and the one call made is that
    for ['-']. *)
Lemma print_int_min_wrapping (m : machine) :
  int32 (- INT32_MIN) = INT32_MIN
  /\ (forall fuel digits,
        extract_digits fuel (int32 (- INT32_MIN)) digits 0 = Done (digits, 0))
  /\ debugPrintInt INT32_MIN m = uart1_print_char "-" m
  /\ transmitted (exec (debugPrintInt INT32_MIN ;; drain 12)%cmd started) = ["-"%char].
Proof.
  split; [reflexivity|]. split; [|split].
  - intros fuel digits. apply extract_digits_done. vm_compute. discriminate.
  - cbv -[uart1_print_char].
    destruct (uart1_print_char "-" m) as [[] s]. reflexivity.
  - vm_compute. reflexivity.
Qed.

(** The checked and the wrapping function agree wherever the negation
    fits. *)
Lemma checked_agrees value m :
  INT32_MIN < value <= INT32_MAX ->
  debugPrintInt_checked value m = (Some tt, exec (debugPrintInt value) m).
Proof.
  unfold INT32_MIN, INT32_MAX. change (2 ^ 31) with 2147483648. intros Hv.
  assert (forall v s,
            0 <= v < 10 ^ 10 ->
            (if v =? 0 then (uart1_print_char "0" ;; ret (Some tt))%cmd
             else
               match extract_digits (loop_fuel v) v (replicate 10 zero) 0 with
               | Done (digits, count) =>
                   (emit_digits digits (Z.to_nat count) ;; ret (Some tt))%cmd
               | OutOfBounds | OutOfFuel => ret None
               end) s
            = (Some tt,
               exec (if v =? 0 then uart1_print_char "0"
                     else
                       match extract_digits (loop_fuel v) v (replicate 10 zero) 0 with
                       | Done (digits, count) => emit_digits digits (Z.to_nat count)
                       | OutOfBounds | OutOfFuel => ret tt
                       end) s)) as Htail.
  { intros v s Hr. destruct (Z.eqb_spec v 0) as [->|Hnz].
    - unfold exec, bind, ret. destruct (uart1_print_char "0" s) as [[] s1]. reflexivity.
    - destruct (extract_digits_runs v (replicate 10 zero)) as (d' & c' & ->);
        [lia | reflexivity |].
      unfold exec, bind, ret. destruct (emit_digits d' (Z.to_nat c') s) as [[] s1].
      reflexivity. }
  unfold debugPrintInt_checked, debugPrintInt, exec, bind.
  destruct (Z.ltb_spec value 0) as [Hneg|Hpos].
  - destruct (uart1_print_char "-" m) as [[] s]. unfold ret.
    assert (int32 (- value) = - value) as ->.
    { unfold int32. change (2 ^ 31) with 2147483648. change (2 ^ 32) with 4294967296.
      rewrite Z.mod_small by lia. lia. }
    assert ((INT32_MIN <=? - value) && (- value <=? INT32_MAX) = true) as ->.
    { unfold INT32_MIN, INT32_MAX. change (2 ^ 31) with 2147483648.
      apply andb_true_intro. split; apply Z.leb_le; lia. }
    apply Htail. change (10 ^ 10) with 10000000000. lia.
  - unfold ret. apply Htail. change (10 ^ 10) with 10000000000. lia.
Qed.



(** *** Floating point literals *)

(** The [float] that stands for the literal 3.14159 is the multiple of
    [2 ^ -22] nearest to it, whether the literal is rounded to binary32 at
    once or to binary64 first. *)
Lemma literal_3_14159 :
  float_literal 314159 100000 = S754_finite false 13176784 (-22)
  /\ 2 * Z.abs (13176784 * 100000 - 314159 * 2 ^ 22) <= 100000
  /\ (match SFdiv 53 1024 (binary_normalize 53 1024 314159 0 false)
                          (binary_normalize 53 1024 100000 0 false) with
      | S754_finite s mant e => binary_normalize prec emax (cond_Zopp s (Z.pos mant)) e s
      | f => f
      end) = float_literal 314159 100000.
Proof. repeat split; vm_compute; congruence. Qed.

Lemma literal_42_718 :
  float_literal 42718 1000 = S754_finite false 11198267 (-18)
  /\ 2 * Z.abs (11198267 * 1000 - 42718 * 2 ^ 18) <= 1000
  /\ (match SFdiv 53 1024 (binary_normalize 53 1024 42718 0 false)
                          (binary_normalize 53 1024 1000 0 false) with
      | S754_finite s mant e => binary_normalize prec emax (cond_Zopp s (Z.pos mant)) e s
      | f => f
      end) = float_literal 42718 1000.
Proof. repeat split; vm_compute; congruence. Qed.

(** C7. [debugPrintFloat] on (3.14159, 3) makes exactly the calls that spell
    "3.141": each digit of the fraction is cut off, not rounded, though the
    next digit is 5. On (42.718, 0) it makes exactly the calls that spell
    "42" and none for a decimal point. Once drained these are the bytes
    sent. *)
Theorem print_float_examples (m : machine) :
  debugPrintFloat (float_literal 314159 100000) 3 m
  = emit_all (list_ascii_of_string "3.141") m
  /\ debugPrintFloat (float_literal 42718 1000) 0 m
     = emit_all (list_ascii_of_string "42") m
  /\ transmitted (exec (debugPrintFloat (float_literal 314159 100000) 3 ;; drain 5)%cmd started)
     = list_ascii_of_string "3.141"
  /\ transmitted (exec (debugPrintFloat (float_literal 42718 1000) 0 ;; drain 5)%cmd started)
     = list_ascii_of_string "42"
  /\ transmitted (exec (debugPrintFloat (float_literal 314159 100000) 4 ;; drain 6)%cmd started)
     = list_ascii_of_string "3.1415".
Proof.
  repeat split; try (vm_compute; reflexivity); run_emits.
Qed.

(** * Further properties *)

(** ** The ring buffer as a bounded queue *)

Lemma exec_seq {St} (a b : M St unit) s :
  exec (a ;; b)%cmd s = exec b (exec a s).
Proof. unfold exec, bind. destruct (a s) as [[] s1]. reflexivity. Qed.

Lemma exec_run_get SIZE rest buf :
  exec (run_calls SIZE (Get :: rest)) buf
  = exec (run_calls SIZE rest) (exec (debug_buffer_get SIZE) buf).
Proof.
  unfold exec. simpl. unfold bind.
  destruct (debug_buffer_get SIZE buf) as [r b1]. cbn [snd].
  destruct (run_calls SIZE rest b1) as [out b2]. reflexivity.
Qed.

Lemma pending_length SIZE buf :
  length (pending SIZE buf) = Z.to_nat (occupancy SIZE buf).
Proof.
  unfold pending. generalize (debugTail buf) as t.
  induction (Z.to_nat (occupancy SIZE buf)) as [|n IH]; intros t; simpl;
    [reflexivity | by rewrite IH].
Qed.

Lemma occupancy_range SIZE buf : 0 < SIZE -> 0 <= occupancy SIZE buf < SIZE.
Proof. intros H. apply Z.mod_pos_bound. exact H. Qed.

Lemma full_iff_occupancy SIZE buf :
  0 < SIZE -> cursors_in_range SIZE buf ->
  eval (debug_buffer_is_full SIZE) buf = true <-> occupancy SIZE buf = SIZE - 1.
Proof.
  intros Hpos Hr. rewrite (is_full_spec SIZE Hpos buf Hr).
  destruct Hr as [Hh Ht]. unfold occupancy.
  rewrite (wrap_cases SIZE (debugHead buf + 1)) by lia.
  rewrite (wrap_neg_cases SIZE (debugHead buf - debugTail buf)) by lia.
  destruct (Z.ltb_spec (debugHead buf + 1) SIZE);
    destruct (Z.ltb_spec (debugHead buf - debugTail buf) 0); lia.
Qed.

Lemma empty_iff_occupancy SIZE buf :
  0 < SIZE -> cursors_in_range SIZE buf ->
  eval debug_buffer_is_empty buf = true <-> occupancy SIZE buf = 0.
Proof.
  intros Hpos [Hh Ht]. rewrite is_empty_spec. unfold occupancy.
  rewrite (wrap_neg_cases SIZE (debugHead buf - debugTail buf)) by lia.
  destruct (Z.ltb_spec (debugHead buf - debugTail buf) 0); lia.
Qed.

(** The ring buffer seen through [pending]. *)
Lemma pending_queue (SIZE : Z) (buf : debugRingBuffer_t) :
  0 < SIZE <= 256 ->
  cursors_in_range SIZE buf ->
  storage_fits SIZE buf ->
  let q := pending SIZE buf in
  Z.of_nat (length q) <= SIZE - 1
  /\ (eval debug_buffer_is_empty buf = true <-> q = [])
  /\ (eval (debug_buffer_is_full SIZE) buf = true <-> Z.of_nat (length q) = SIZE - 1)
  /\ (forall c,
        pending SIZE (exec (debug_buffer_put SIZE c) buf)
        = if eval (debug_buffer_is_full SIZE) buf then q else q ++ [c])
  /\ eval (debug_buffer_get SIZE) buf = head q
  /\ pending SIZE (exec (debug_buffer_get SIZE) buf) = tail q
  /\ pending SIZE (exec debug_buffer_init buf) = [].
Proof.
  intros [Hpos Hu8] Hr Hs q.
  pose proof (occupancy_range SIZE buf Hpos) as Hocc.
  assert (Z.of_nat (length q) = occupancy SIZE buf) as Hlen.
  { subst q. rewrite pending_length. lia. }
  split; [lia|]. split; [|split; [|split; [|split; [|split]]]].
  - rewrite (empty_iff_occupancy SIZE buf Hpos Hr). split.
    + intros H0. apply nil_length_inv. lia.
    + intros Hq. rewrite Hq in Hlen. simpl in Hlen. lia.
  - rewrite (full_iff_occupancy SIZE buf Hpos Hr). lia.
  - intros c. destruct (eval (debug_buffer_is_full SIZE) buf) eqn:Hf.
    + unfold exec. rewrite put_when_full by exact Hf. reflexivity.
    + apply pending_put; assumption.
  - destruct (eval debug_buffer_is_empty buf) eqn:He.
    + unfold eval. rewrite get_when_empty by exact He. subst q.
      rewrite (pending_empty SIZE Hpos buf He). reflexivity.
    + destruct (pending_get SIZE Hpos Hu8 buf Hr He) as (c & Hc & Hp).
      subst q. rewrite Hc, Hp. reflexivity.
  - destruct (eval debug_buffer_is_empty buf) eqn:He.
    + unfold exec. rewrite get_when_empty by exact He. subst q. cbn [snd].
      rewrite (pending_empty SIZE Hpos buf He). reflexivity.
    + destruct (pending_get SIZE Hpos Hu8 buf Hr He) as (c & Hc & Hp).
      subst q. rewrite Hp. reflexivity.
  - apply pending_init.
Qed.

(** X1. Under the invariant the ring buffer is a queue of at most
    [SIZE - 1] bytes: [is_empty] and [is_full] tell that the queue is empty
    and that it holds [SIZE - 1] bytes, [put] appends unless the queue is
    full and then changes nothing, [get] returns and removes the oldest
    byte, or fails on an empty queue, and [init] empties it. *)
Theorem ring_is_bounded_queue (SIZE : Z) (buf : debugRingBuffer_t) :
  0 < SIZE <= 256 ->
  cursors_in_range SIZE buf ->
  storage_fits SIZE buf ->
  let q := pending SIZE buf in
  Z.of_nat (length q) <= SIZE - 1
  /\ (eval debug_buffer_is_empty buf = true <-> q = [])
  /\ (eval (debug_buffer_is_full SIZE) buf = true <-> Z.of_nat (length q) = SIZE - 1)
  /\ (forall c,
        pending SIZE (exec (debug_buffer_put SIZE c) buf)
        = if eval (debug_buffer_is_full SIZE) buf then q else q ++ [c])
  /\ eval (debug_buffer_get SIZE) buf = head q
  /\ pending SIZE (exec (debug_buffer_get SIZE) buf) = tail q
  /\ pending SIZE (exec debug_buffer_init buf) = [].
Proof. apply pending_queue. Qed.

Lemma ring_is_bounded_queue_witness :
  let buf := exec (debug_buffer_put 100 "a") (exec debug_buffer_init (zeroed_buffer 100)) in
  (0 < 100 <= 256)
  /\ cursors_in_range 100 buf
  /\ storage_fits 100 buf
  /\ eval (debug_buffer_get 100) buf = head (pending 100 buf).
Proof.
  intros buf.
  assert (H1 : 0 < 100 <= 256) by lia.
  assert (H2 : cursors_in_range 100 buf) by (vm_compute; repeat split; discriminate).
  assert (H3 : storage_fits 100 buf) by reflexivity.
  pose proof (ring_is_bounded_queue 100 buf H1 H2 H3) as (_ & _ & _ & _ & Hget & _).
  exact (conj H1 (conj H2 (conj H3 Hget))).
Defined.

(** X2. Bytes put beyond the capacity are dropped and the earlier ones
    kept: after any number of puts on a buffer in a good state the queue is
    the first [SIZE - 1] bytes of what was queued followed by what was
    put. *)
Theorem puts_keep_oldest (SIZE : Z) (bytes : list ascii) :
  0 < SIZE <= 256 ->
  forall buf,
    cursors_in_range SIZE buf ->
    storage_fits SIZE buf ->
    pending SIZE (exec (run_calls SIZE (map Put bytes)) buf)
    = take (Z.to_nat (SIZE - 1)) (pending SIZE buf ++ bytes).
Proof.
  intros HS. pose proof HS as [Hpos Hu8].
  induction bytes as [|c bytes IH]; intros buf Hr Hs.
  - unfold exec. simpl. rewrite app_nil_r.
    symmetry. apply take_ge.
    pose proof (pending_queue SIZE buf HS Hr Hs) as (Hle & _). lia.
  - simpl map. rewrite exec_run_put.
    rewrite IH by (apply put_in_range || apply put_fits; assumption).
    pose proof (pending_queue SIZE buf HS Hr Hs) as (Hle & _ & Hfull & Hput & _).
    rewrite Hput. destruct (eval (debug_buffer_is_full SIZE) buf) eqn:Hf.
    + assert (Z.of_nat (length (pending SIZE buf)) = SIZE - 1) as Hl
          by (apply Hfull; reflexivity).
      rewrite !take_app_le by lia. reflexivity.
    + rewrite <- app_assoc. reflexivity.
Qed.

Lemma puts_keep_oldest_witness :
  let buf := exec debug_buffer_init (zeroed_buffer 3) in
  (0 < 3 <= 256)
  /\ cursors_in_range 3 buf
  /\ storage_fits 3 buf
  /\ pending 3 (exec (run_calls 3 (map Put ["a"; "b"; "c"; "d"]%char)) buf)
     = take (Z.to_nat (3 - 1)) (pending 3 buf ++ ["a"; "b"; "c"; "d"]%char).
Proof.
  intros buf.
  assert (H1 : 0 < 3 <= 256) by lia.
  assert (H2 : cursors_in_range 3 buf) by (vm_compute; repeat split; discriminate).
  assert (H3 : storage_fits 3 buf) by reflexivity.
  exact (conj H1 (conj H2 (conj H3
           (puts_keep_oldest 3 ["a"; "b"; "c"; "d"]%char H1 buf H2 H3)))).
Defined.

(** X3. No call sequence takes an index outside the array: started from
    an initialised buffer with [SIZE] slots, after any puts and gets, legal
    or not, the storage still has [SIZE] slots and both cursors, the only
    indices used, are below its length. *)
Theorem indices_in_storage (SIZE : Z) (buf0 : debugRingBuffer_t) (calls : list rb_call) :
  0 < SIZE ->
  storage_fits SIZE buf0 ->
  let buf := exec (run_calls SIZE calls) (exec debug_buffer_init buf0) in
  length (debugBuffer buf) = length (debugBuffer buf0)
  /\ (Z.to_nat (debugHead buf) < length (debugBuffer buf))%nat
  /\ (Z.to_nat (debugTail buf) < length (debugBuffer buf))%nat.
Proof.
  intros Hpos Hs0.
  assert (forall b, cursors_in_range SIZE b -> storage_fits SIZE b ->
            cursors_in_range SIZE (exec (run_calls SIZE calls) b)
            /\ storage_fits SIZE (exec (run_calls SIZE calls) b)) as Hinv.
  { induction calls as [|[c|] rest IH]; intros b Hr Hs.
    - split; assumption.
    - rewrite exec_run_put. apply IH; [apply put_in_range | apply put_fits]; assumption.
    - rewrite exec_run_get. apply IH; [apply get_in_range | apply get_fits]; assumption. }
  intros buf.
  destruct (Hinv (exec debug_buffer_init buf0)) as [[Hh Ht] Hs];
    [apply init_in_range; exact Hpos | exact Hs0 |].
  fold buf in Hh, Ht, Hs. unfold storage_fits in *. repeat split; lia.
Qed.

Lemma indices_in_storage_witness :
  let calls := [Get; Put "a"; Put "b"; Put "c"; Get; Get; Get]%char in
  let buf := exec (run_calls 3 calls) (exec debug_buffer_init (zeroed_buffer 3)) in
  0 < 3
  /\ storage_fits 3 (zeroed_buffer 3)
  /\ length (debugBuffer buf) = length (debugBuffer (zeroed_buffer 3))
  /\ (Z.to_nat (debugHead buf) < length (debugBuffer buf))%nat
  /\ (Z.to_nat (debugTail buf) < length (debugBuffer buf))%nat.
Proof.
  intros calls buf.
  assert (H1 : 0 < 3) by lia.
  assert (H2 : storage_fits 3 (zeroed_buffer 3)) by reflexivity.
  exact (conj H1 (conj H2 (indices_in_storage 3 (zeroed_buffer 3) calls H1 H2))).
Defined.

(** ** The line: what is sent and in which order *)

Lemma size_ok : 0 < DEBUG_BUFFER_SIZE <= 256.
Proof. unfold DEBUG_BUFFER_SIZE. lia. Qed.

Lemma char_round_trip c : char_of_int (uint8 (int_of_char c)) = c.
Proof.
  unfold char_of_int, int_of_char.
  pose proof (N_ascii_bounded c) as Hb.
  rewrite (uint8_small (Z.of_N (N_of_ascii c))) by lia.
  rewrite (uint8_small (Z.of_N (N_of_ascii c))) by lia.
  rewrite N2Z.id. apply ascii_N_embedding.
Qed.

(** What one call of [uart1_print_char] does to the line. *)
Lemma emit_line data m :
  tx_ok m ->
  tx_ok (exec (uart1_print_char data) m)
  /\ transmitted (exec (uart1_print_char data) m) = transmitted m
  /\ pending DEBUG_BUFFER_SIZE (debugTxBuffer (exec (uart1_print_char data) m))
     = if eval (debug_buffer_is_full DEBUG_BUFFER_SIZE) (debugTxBuffer m)
       then pending DEBUG_BUFFER_SIZE (debugTxBuffer m)
       else pending DEBUG_BUFFER_SIZE (debugTxBuffer m) ++ [data].
Proof.
  intros [Hr Hs]. pose proof size_ok as HS.
  unfold exec at 1 2 3. rewrite uart1_print_char_effect. cbv zeta. cbn [snd].
  split; [|split].
  - split; cbn [debugTxBuffer]; [apply put_in_range | apply put_fits]; (assumption || lia).
  - unfold transmitted. cbn [trace]. rewrite omap_app.
    destruct (eval debug_buffer_is_empty (debugTxBuffer m)); simpl; apply app_nil_r.
  - cbn [debugTxBuffer].
    apply (pending_queue DEBUG_BUFFER_SIZE (debugTxBuffer m) HS Hr Hs).
Qed.

(** What one run of the handler does to the line. *)
Lemma handler_line m :
  tx_ok m ->
  let q := pending DEBUG_BUFFER_SIZE (debugTxBuffer m) in
  tx_ok (exec ISR_USART1_UDRE_vect m)
  /\ transmitted (exec ISR_USART1_UDRE_vect m)
     = transmitted m ++ match q with c :: _ => [c] | [] => [] end
  /\ pending DEBUG_BUFFER_SIZE (debugTxBuffer (exec ISR_USART1_UDRE_vect m)) = tail q
  /\ armed (exec ISR_USART1_UDRE_vect m)
     = match q with _ :: _ => armed m | [] => false end.
Proof.
  intros [Hr Hs] q. pose proof size_ok as HS.
  pose proof (pending_queue DEBUG_BUFFER_SIZE (debugTxBuffer m) HS Hr Hs)
    as (_ & _ & _ & _ & Hget & Htail & _).
  fold q in Hget, Htail.
  assert (tx_ok (exec ISR_USART1_UDRE_vect m)
          /\ debugTxBuffer (exec ISR_USART1_UDRE_vect m)
             = exec (debug_buffer_get DEBUG_BUFFER_SIZE) (debugTxBuffer m)) as [Hok Hbuf].
  { unfold exec at 1 2. rewrite ISR_effect.
    assert (tx_ok_get : cursors_in_range DEBUG_BUFFER_SIZE
                          (exec (debug_buffer_get DEBUG_BUFFER_SIZE) (debugTxBuffer m))
                        /\ storage_fits DEBUG_BUFFER_SIZE
                          (exec (debug_buffer_get DEBUG_BUFFER_SIZE) (debugTxBuffer m)))
      by (split; [apply get_in_range | apply get_fits]; (assumption || lia)).
    destruct (eval (debug_buffer_get DEBUG_BUFFER_SIZE) (debugTxBuffer m));
      cbv zeta; cbn [snd]; split; (exact tx_ok_get || reflexivity). }
  split; [exact Hok|]. rewrite Hbuf. split; [|split; [exact Htail|]].
  - unfold exec. rewrite ISR_effect, Hget. unfold transmitted.
    destruct q as [|c q']; cbv zeta; cbn [head snd trace]; rewrite omap_app; simpl.
    + reflexivity.
    + rewrite char_round_trip. reflexivity.
  - unfold exec. rewrite ISR_effect, Hget. unfold armed.
    destruct q as [|c q']; cbv zeta; cbn [head snd UCSR1B].
    + apply udrie1_cleared.
    + reflexivity.
Qed.

(** X4. However calls of [uart1_print_char] and runs of the handler are
    interleaved, the bytes sent followed by the bytes queued are what they
    were at the start followed by the bytes of the calls that found room, in
    call order: nothing is reordered, repeated or invented, and a byte is
    lost only to a full buffer. *)
Theorem line_keeps_order (acts : list action) :
  forall m,
    tx_ok m ->
    no_begin acts = true ->
    stream (exec (run_actions acts) m) = stream m ++ accepted acts m
    /\ tx_ok (exec (run_actions acts) m).
Proof.
  induction acts as [|a acts IH]; intros m Hok Hnb.
  - unfold exec. simpl. rewrite app_nil_r. split; [reflexivity | exact Hok].
  - simpl in Hnb. apply andb_prop in Hnb as [Ha Hnb].
    simpl run_actions. rewrite exec_seq. simpl accepted.
    destruct a as [f b | c | ]; [discriminate | |]; cbn [perform] in *.
    + destruct (emit_line c m Hok) as (Hok1 & Htr & Hq).
      destruct (IH _ Hok1 Hnb) as [IHs IHok]. split; [|exact IHok].
      rewrite IHs. unfold stream at 1. rewrite Htr, Hq. unfold stream.
      destruct (eval (debug_buffer_is_full DEBUG_BUFFER_SIZE) (debugTxBuffer m));
        rewrite <- ?app_assoc; reflexivity.
    + destruct (handler_line m Hok) as (Hok1 & Htr & Hq & _).
      destruct (IH _ Hok1 Hnb) as [IHs IHok]. split; [|exact IHok].
      rewrite IHs. unfold stream at 1. rewrite Htr, Hq. unfold stream.
      destruct (pending DEBUG_BUFFER_SIZE (debugTxBuffer m)); simpl;
        rewrite <- ?app_assoc; reflexivity.
Qed.

Lemma tx_ok_started : tx_ok started.
Proof. split; [vm_compute; repeat split; discriminate | reflexivity]. Qed.

Lemma line_keeps_order_witness :
  let acts := [Emit "a"; Drain; Drain; Emit "b"; Emit "c"; Drain]%char in
  tx_ok started
  /\ no_begin acts = true
  /\ stream (exec (run_actions acts) started) = stream started ++ accepted acts started
  /\ tx_ok (exec (run_actions acts) started).
Proof.
  intros acts.
  assert (H1 : tx_ok started)
    by (split; [vm_compute; repeat split; discriminate | reflexivity]).
  assert (H2 : no_begin acts = true) by reflexivity.
  exact (conj H1 (conj H2 (line_keeps_order acts started H1 H2))).
Defined.

(** *** Draining *)

Lemma drain_line n :
  forall m,
    tx_ok m ->
    tx_ok (exec (drain n) m)
    /\ transmitted (exec (drain n) m)
       = transmitted m ++ take n (pending DEBUG_BUFFER_SIZE (debugTxBuffer m))
    /\ pending DEBUG_BUFFER_SIZE (debugTxBuffer (exec (drain n) m))
       = drop n (pending DEBUG_BUFFER_SIZE (debugTxBuffer m)).
Proof.
  induction n as [|n IH]; intros m Hok.
  - unfold exec. simpl. rewrite app_nil_r. split; [exact Hok | split; reflexivity].
  - simpl drain. rewrite exec_seq.
    destruct (handler_line m Hok) as (Hok1 & Htr & Hq & _).
    destruct (IH _ Hok1) as (IHok & IHtr & IHq).
    split; [exact IHok|]. rewrite IHtr, IHq, Htr, Hq.
    destruct (pending DEBUG_BUFFER_SIZE (debugTxBuffer m)) as [|c q]; simpl.
    + rewrite take_nil, drop_nil, !app_nil_r. done.
    + rewrite <- app_assoc. done.
Qed.

Lemma drain_armed n :
  forall m,
    tx_ok m ->
    armed (exec (drain n) m)
    = if (n <=? length (pending DEBUG_BUFFER_SIZE (debugTxBuffer m)))%nat
      then armed m else false.
Proof.
  induction n as [|n IH]; intros m Hok.
  - reflexivity.
  - simpl drain. rewrite exec_seq.
    destruct (handler_line m Hok) as (Hok1 & _ & Hq & Harm).
    rewrite IH by exact Hok1. rewrite Hq, Harm.
    destruct (pending DEBUG_BUFFER_SIZE (debugTxBuffer m)) as [|c q]; simpl.
    + destruct (n <=? 0)%nat; reflexivity.
    + reflexivity.
Qed.

Lemma emit_all_line l :
  forall m,
    tx_ok m ->
    Z.of_nat (length (pending DEBUG_BUFFER_SIZE (debugTxBuffer m)) + length l)
    <= DEBUG_BUFFER_SIZE - 1 ->
    tx_ok (exec (emit_all l) m)
    /\ transmitted (exec (emit_all l) m) = transmitted m
    /\ pending DEBUG_BUFFER_SIZE (debugTxBuffer (exec (emit_all l) m))
       = pending DEBUG_BUFFER_SIZE (debugTxBuffer m) ++ l.
Proof.
  induction l as [|c l IH]; intros m Hok Hroom.
  - unfold exec. simpl. rewrite app_nil_r. split; [exact Hok | split; reflexivity].
  - simpl emit_all. rewrite exec_seq. simpl length in Hroom.
    destruct (emit_line c m Hok) as (Hok1 & Htr & Hq).
    assert (eval (debug_buffer_is_full DEBUG_BUFFER_SIZE) (debugTxBuffer m) = false) as Hf.
    { apply not_true_is_false. intros Hf. destruct Hok as [Hr Hs].
      apply (pending_queue DEBUG_BUFFER_SIZE (debugTxBuffer m) size_ok Hr Hs) in Hf.
      lia. }
    rewrite Hf in Hq.
    destruct (IH _ Hok1) as (IHok & IHtr & IHq).
    { rewrite Hq, length_app. simpl. lia. }
    split; [exact IHok|]. rewrite IHtr, IHq, Htr, Hq, <- app_assoc. done.
Qed.

(** X5. What is printed into a buffer with room for it is sent whole and in
    order: when the queued bytes and the new ones together are at most 99,
    after the calls of [uart1_print_char] and as many handler runs as there
    are bytes, the bytes sent are those sent before, those queued before and
    the new ones, the buffer is empty and nothing was dropped. *)
Theorem print_then_drain (l : list ascii) (m : machine) :
  tx_ok m ->
  let q := pending DEBUG_BUFFER_SIZE (debugTxBuffer m) in
  Z.of_nat (length q + length l) <= DEBUG_BUFFER_SIZE - 1 ->
  let m' := exec (emit_all l ;; drain (length q + length l))%cmd m in
  transmitted m' = transmitted m ++ q ++ l
  /\ eval debug_buffer_is_empty (debugTxBuffer m') = true.
Proof.
  intros Hok q Hroom m'. subst m'. rewrite exec_seq.
  destruct (emit_all_line l m Hok Hroom) as (Hok1 & Htr & Hq).
  destruct (drain_line (length q + length l) _ Hok1) as (Hok2 & Htr2 & Hq2).
  fold q in Hq. rewrite Hq in Htr2, Hq2.
  rewrite take_ge in Htr2 by (rewrite length_app; lia).
  rewrite drop_ge in Hq2 by (rewrite length_app; lia).
  split; [rewrite Htr2, Htr; reflexivity|].
  destruct Hok2 as [Hr Hs].
  apply (pending_queue DEBUG_BUFFER_SIZE _ size_ok Hr Hs). exact Hq2.
Qed.

Lemma print_then_drain_witness :
  let l := list_ascii_of_string "hello" in
  let q := pending DEBUG_BUFFER_SIZE (debugTxBuffer started) in
  let m' := exec (emit_all l ;; drain (length q + length l))%cmd started in
  tx_ok started
  /\ Z.of_nat (length q + length l) <= DEBUG_BUFFER_SIZE - 1
  /\ transmitted m' = transmitted started ++ q ++ l
  /\ eval debug_buffer_is_empty (debugTxBuffer m') = true.
Proof.
  intros l q m'.
  assert (H1 : tx_ok started)
    by (split; [vm_compute; repeat split; discriminate | reflexivity]).
  assert (H2 : Z.of_nat (length q + length l) <= DEBUG_BUFFER_SIZE - 1)
    by (vm_compute; discriminate).
  exact (conj H1 (conj H2 (print_then_drain l started H1 H2))).
Defined.

(** X6. Drain to idle and back: with the interrupt enabled and [n] bytes
    queued, [n] runs of the handler send them and leave the interrupt
    enabled, the next run finds the buffer empty, sends nothing and
    disables the interrupt, and the next call of [uart1_print_char] enables
    it again and queues its byte. *)
Theorem drain_to_idle (m : machine) (data : ascii) :
  tx_ok m ->
  armed m = true ->
  let q := pending DEBUG_BUFFER_SIZE (debugTxBuffer m) in
  let drained := exec (drain (length q)) m in
  let idle := exec ISR_USART1_UDRE_vect drained in
  let again := exec (uart1_print_char data) idle in
  transmitted drained = transmitted m ++ q
  /\ armed drained = true
  /\ transmitted idle = transmitted drained
  /\ armed idle = false
  /\ armed again = true
  /\ pending DEBUG_BUFFER_SIZE (debugTxBuffer again) = [data].
Proof.
  intros Hok Harm q drained idle again.
  destruct (drain_line (length q) m Hok) as (Hok1 & Htr & Hq).
  fold q drained in Hok1, Htr, Hq. rewrite firstn_all in Htr. rewrite drop_all in Hq.
  pose proof (drain_armed (length q) m Hok) as Ha. fold q drained in Ha.
  rewrite Nat.leb_refl in Ha.
  destruct (handler_line drained Hok1) as (Hok2 & Htr2 & Hq2 & Ha2).
  fold idle in Hok2, Htr2, Hq2, Ha2. rewrite Hq in Htr2, Hq2, Ha2. simpl in Hq2.
  rewrite app_nil_r in Htr2.
  destruct (emit_line data idle Hok2) as (Hok3 & _ & Hq3). fold again in Hq3.
  assert (eval debug_buffer_is_empty (debugTxBuffer idle) = true) as He.
  { destruct Hok2 as [Hr Hs].
    apply (pending_queue DEBUG_BUFFER_SIZE _ size_ok Hr Hs). exact Hq2. }
  assert (eval (debug_buffer_is_full DEBUG_BUFFER_SIZE) (debugTxBuffer idle) = false) as Hf.
  { apply not_true_is_false. intros Hf. destruct Hok2 as [Hr Hs].
    apply (not_empty_and_full DEBUG_BUFFER_SIZE (proj1 size_ok) (debugTxBuffer idle));
      [reflexivity | exact Hr | split; assumption]. }
  rewrite Hf, Hq2 in Hq3.
  repeat split; try assumption; try congruence.
  unfold again, exec. rewrite uart1_print_char_effect. cbv zeta. unfold armed.
  cbn [snd UCSR1B]. rewrite He. apply udrie1_set.
Qed.

Lemma drain_to_idle_witness :
  let m := exec (emit_all (list_ascii_of_string "ok")) started in
  let q := pending DEBUG_BUFFER_SIZE (debugTxBuffer m) in
  let drained := exec (drain (length q)) m in
  let idle := exec ISR_USART1_UDRE_vect drained in
  let again := exec (uart1_print_char "!") idle in
  tx_ok m
  /\ armed m = true
  /\ transmitted drained = transmitted m ++ q
  /\ armed drained = true
  /\ transmitted idle = transmitted drained
  /\ armed idle = false
  /\ armed again = true
  /\ pending DEBUG_BUFFER_SIZE (debugTxBuffer again) = ["!"%char].
Proof.
  intros m q drained idle again.
  assert (H1 : tx_ok m)
    by (split; [vm_compute; repeat split; discriminate | reflexivity]).
  assert (H2 : armed m = true) by reflexivity.
  exact (conj H1 (conj H2 (drain_to_idle m "!"%char H1 H2))).
Defined.

(** *** Printing more than fits *)

Lemma emit_all_app l1 l2 m :
  emit_all (l1 ++ l2) m = (emit_all l1 ;; emit_all l2)%cmd m.
Proof.
  revert m. induction l1 as [|c l1 IH]; intros m; simpl.
  - reflexivity.
  - unfold bind at 1 2 3. destruct (uart1_print_char c m) as [[] s]. rewrite IH.
    reflexivity.
Qed.

Lemma emit_all_keeps_oldest l :
  forall m,
    tx_ok m ->
    tx_ok (exec (emit_all l) m)
    /\ transmitted (exec (emit_all l) m) = transmitted m
    /\ pending DEBUG_BUFFER_SIZE (debugTxBuffer (exec (emit_all l) m))
       = take 99 (pending DEBUG_BUFFER_SIZE (debugTxBuffer m) ++ l).
Proof.
  induction l as [|c l IH]; intros m Hok.
  - unfold exec. simpl. rewrite app_nil_r.
    split; [exact Hok|]. split; [reflexivity|].
    symmetry. apply take_ge. destruct Hok as [Hr Hs].
    pose proof (pending_queue DEBUG_BUFFER_SIZE _ size_ok Hr Hs) as (Hle & _).
    change (DEBUG_BUFFER_SIZE - 1) with 99 in Hle. lia.
  - simpl emit_all. rewrite exec_seq.
    destruct (emit_line c m Hok) as (Hok1 & Htr & Hq).
    destruct (IH _ Hok1) as (IHok & IHtr & IHq).
    split; [exact IHok|]. split; [congruence|].
    rewrite IHq, Hq. destruct Hok as [Hr Hs].
    pose proof (pending_queue DEBUG_BUFFER_SIZE _ size_ok Hr Hs)
      as (_ & _ & Hfull & _).
    destruct (eval (debug_buffer_is_full DEBUG_BUFFER_SIZE) (debugTxBuffer m)) eqn:Hf.
    + assert (length (pending DEBUG_BUFFER_SIZE (debugTxBuffer m)) = 99%nat) as Hl.
      { destruct Hfull as [Hfull _]. specialize (Hfull eq_refl).
        change (DEBUG_BUFFER_SIZE - 1) with 99 in Hfull. lia. }
      rewrite !take_app_le by lia. reflexivity.
    + rewrite <- app_assoc. reflexivity.
Qed.

Lemma debugPrint_calls str m : debugPrint str m = emit_all (c_text str) m.
Proof.
  revert m. induction str as [|c str IH]; intros m; simpl.
  - reflexivity.
  - destruct (Ascii.eqb c zero); [reflexivity|]. simpl. unfold bind.
    destruct (uart1_print_char c m) as [[] s]. apply IH.
Qed.

Lemma debugPrintln_calls str m :
  debugPrintln str m = emit_all (c_text str ++ ["013"; "010"]%char) m.
Proof.
  rewrite emit_all_app. unfold debugPrintln, bind. rewrite debugPrint_calls.
  destruct (emit_all (c_text str) m) as [[] s]. simpl. unfold bind.
  destruct (uart1_print_char "013" s) as [[] s1].
  destruct (uart1_print_char "010" s1) as [[] s2]. reflexivity.
Qed.



(** ** Starting the driver *)

Lemma handler_keeps m :
  debugHead (debugTxBuffer (exec ISR_USART1_UDRE_vect m)) = debugHead (debugTxBuffer m)
  /\ debugBuffer (debugTxBuffer (exec ISR_USART1_UDRE_vect m))
     = debugBuffer (debugTxBuffer m)
  /\ SREG_I (exec ISR_USART1_UDRE_vect m) = SREG_I m.
Proof.
  unfold exec. rewrite ISR_effect.
  assert (debugHead (exec (debug_buffer_get DEBUG_BUFFER_SIZE) (debugTxBuffer m))
          = debugHead (debugTxBuffer m)
          /\ debugBuffer (exec (debug_buffer_get DEBUG_BUFFER_SIZE) (debugTxBuffer m))
             = debugBuffer (debugTxBuffer m)) as [Hh Hb].
  { unfold exec. destruct (eval debug_buffer_is_empty (debugTxBuffer m)) eqn:He.
    - rewrite get_when_empty by exact He. split; reflexivity.
    - rewrite get_when_data by exact He. split; reflexivity. }
  destruct (eval (debug_buffer_get DEBUG_BUFFER_SIZE) (debugTxBuffer m));
    cbv zeta; cbn [snd debugTxBuffer SREG_I]; repeat split; assumption.
Qed.

Lemma drain_keeps n :
  forall m,
    debugHead (debugTxBuffer (exec (drain n) m)) = debugHead (debugTxBuffer m)
    /\ debugBuffer (debugTxBuffer (exec (drain n) m)) = debugBuffer (debugTxBuffer m)
    /\ SREG_I (exec (drain n) m) = SREG_I m.
Proof.
  induction n as [|n IH]; intros m.
  - repeat split; reflexivity.
  - simpl drain. rewrite exec_seq.
    destruct (IH (exec ISR_USART1_UDRE_vect m)) as (H1 & H2 & H3).
    destruct (handler_keeps m) as (K1 & K2 & K3).
    repeat split; congruence.
Qed.

Lemma store_keeps r x m :
  debugTxBuffer (exec (store r x) m) = debugTxBuffer m
  /\ SREG_I (exec (store r x) m) = SREG_I m.
Proof. destruct r; split; reflexivity. Qed.

(** The state a preempted [debugSerialBegin] returns in: storage and flag
    as at entry, both cursors zero. *)
Lemma begin_preempted_state F_CPU debugBaud irq m :
  let m' := exec (debugSerialBegin_preempted F_CPU debugBaud irq) m in
  debugHead (debugTxBuffer m') = 0
  /\ debugTail (debugTxBuffer m') = 0
  /\ debugBuffer (debugTxBuffer m') = debugBuffer (debugTxBuffer m)
  /\ SREG_I m' = SREG_I m.
Proof.
  intros m'. subst m'. unfold debugSerialBegin_preempted. cbv zeta.
  set (s0 := exec (drain (irq 0%nat)) m).
  assert (debugBuffer (debugTxBuffer s0) = debugBuffer (debugTxBuffer m)
          /\ SREG_I s0 = SREG_I m) as [B0 I0]
      by (destruct (drain_keeps (irq 0%nat) m) as (_ & ? & ?); split; assumption).
  rewrite exec_seq. fold s0.
  repeat match goal with
  | |- context [exec (bind (store ?r ?x) (fun _ => ?k)) ?s] =>
      rewrite (exec_seq (store r x) k s);
      let B := fresh "B" in let I := fresh "I" in
      destruct (store_keeps r x s) as [B I];
      generalize dependent (exec (store r x) s); intros
  | |- context [exec (bind (drain ?n) (fun _ => ?k)) ?s] =>
      rewrite (exec_seq (drain n) k s);
      let H := fresh "H" in let B := fresh "B" in let I := fresh "I" in
      destruct (drain_keeps n s) as (H & B & I);
      generalize dependent (exec (drain n) s); intros
  | |- context [exec (bind (load ?r) ?k) ?s] =>
      change (exec (bind (load r) k) s) with (exec (k (eval (load r) s)) s);
      generalize (eval (load r) s); intros
  end.
  match goal with
  | |- context [exec (bind (on_tx clear_head) (fun _ => ?k)) ?s] =>
      rewrite (exec_seq (on_tx clear_head) k s);
      set (s1 := exec (on_tx clear_head) s);
      assert (debugHead (debugTxBuffer s1) = 0
              /\ debugBuffer (debugTxBuffer s1) = debugBuffer (debugTxBuffer s)
              /\ SREG_I s1 = SREG_I s) as (Eh1 & Eb1 & Ei1) by (repeat split; reflexivity)
  end.
  rewrite exec_seq.
  destruct (drain_keeps (irq 7%nat) s1) as (Eh2 & Eb2 & Ei2).
  set (s2 := exec (drain (irq 7%nat)) s1) in *.
  assert (debugHead (debugTxBuffer (exec (on_tx clear_tail) s2)) = debugHead (debugTxBuffer s2)
          /\ debugTail (debugTxBuffer (exec (on_tx clear_tail) s2)) = 0
          /\ debugBuffer (debugTxBuffer (exec (on_tx clear_tail) s2))
             = debugBuffer (debugTxBuffer s2)
          /\ SREG_I (exec (on_tx clear_tail) s2) = SREG_I s2) as (Eh3 & Et3 & Eb3 & Ei3)
      by (repeat split; reflexivity).
  repeat split; congruence.
Qed.

(** X8. [debugSerialBegin] leaves the buffer empty even when the handler
    runs between its stores (it does not disable interrupts): both cursors
    are zero when it returns, so from then on, however often the handler
    runs, no byte queued before the call is sent; bytes may have been sent
    during the call. The global interrupt flag is as at entry. If the
    handler does not run during the call, the call is [debugSerialBegin] as
    one step: nothing is sent and the data-register-empty interrupt is
    enabled on return. *)
Theorem begin_discards_queue (F_CPU debugBaud : Z) (irq : nat -> nat) (m : machine) :
  storage_fits DEBUG_BUFFER_SIZE (debugTxBuffer m) ->
  let m' := exec (debugSerialBegin_preempted F_CPU debugBaud irq) m in
  debugHead (debugTxBuffer m') = 0
  /\ debugTail (debugTxBuffer m') = 0
  /\ pending DEBUG_BUFFER_SIZE (debugTxBuffer m') = []
  /\ (forall n, transmitted (exec (drain n) m') = transmitted m')
  /\ SREG_I m' = SREG_I m
  /\ ((forall k, irq k = 0%nat) ->
      m' = exec (debugSerialBegin F_CPU debugBaud) m
      /\ transmitted m' = transmitted m
      /\ armed m' = true).
Proof.
  intros Hs m'.
  destruct (begin_preempted_state F_CPU debugBaud irq m) as (Hh & Ht & Hb & Hi).
  fold m' in Hh, Ht, Hb, Hi.
  assert (pending DEBUG_BUFFER_SIZE (debugTxBuffer m') = []) as Hq.
  { unfold pending, occupancy. rewrite Hh, Ht. reflexivity. }
  assert (tx_ok m') as Hok.
  { split.
    - unfold cursors_in_range. rewrite Hh, Ht. unfold DEBUG_BUFFER_SIZE. lia.
    - unfold storage_fits in *. rewrite Hb. exact Hs. }
  split; [exact Hh|]. split; [exact Ht|]. split; [exact Hq|]. split; [|split; [exact Hi|]].
  - intros n. destruct (drain_line n m' Hok) as (_ & Hd & _).
    rewrite Hq, take_nil, app_nil_r in Hd. exact Hd.
  - intros Hquiet.
    assert (m' = exec (debugSerialBegin F_CPU debugBaud) m) as Heq.
    { subst m'. unfold debugSerialBegin_preempted. rewrite !Hquiet. reflexivity. }
    split; [exact Heq|]. rewrite Heq. split; [|reflexivity].
    unfold transmitted.
    cbv [exec debugSerialBegin bind store load on_tx log snd fst debug_buffer_init trace].
    rewrite !omap_app. simpl. rewrite !app_nil_r. reflexivity.
Qed.

Lemma begin_discards_queue_witness :
  let m := exec (emit_all (list_ascii_of_string "lost")) started in
  let irq := fun k : nat => match k with 5%nat => 1%nat | 7%nat => 2%nat | _ => 0%nat end in
  let m' := exec (debugSerialBegin_preempted 16000000 9600 irq) m in
  storage_fits DEBUG_BUFFER_SIZE (debugTxBuffer m)
  /\ pending DEBUG_BUFFER_SIZE (debugTxBuffer m) = list_ascii_of_string "lost"
  /\ debugHead (debugTxBuffer m') = 0
  /\ debugTail (debugTxBuffer m') = 0
  /\ transmitted (exec (drain 4) m') = transmitted m'.
Proof.
  intros m irq m'.
  assert (H1 : storage_fits DEBUG_BUFFER_SIZE (debugTxBuffer m)) by reflexivity.
  assert (H2 : pending DEBUG_BUFFER_SIZE (debugTxBuffer m) = list_ascii_of_string "lost")
    by reflexivity.
  pose proof (begin_discards_queue 16000000 9600 irq m H1) as (Hh & Ht & _ & Hd & _).
  exact (conj H1 (conj H2 (conj Hh (conj Ht (Hd 4%nat))))).
Defined.

(** X9. For a baud rate and clock within range, that is [0 < debugBaud],
    [8 * debugBaud <= F_CPU < 2 ^ 32] and a divisor below [2 ^ 16],
    [debugSerialBegin] programs the register pair [UBRR1H:UBRR1L] with
    [F_CPU / (8 * debugBaud) - 1], sets double speed, enables the
    transmitter with the data-register-empty interrupt and selects 8 data
    bits, no parity, 1 stop bit. *)
Theorem begin_programs_divisor (F_CPU debugBaud : Z) (m : machine) :
  0 < debugBaud ->
  8 * debugBaud <= F_CPU < 2 ^ 32 ->
  F_CPU / (8 * debugBaud) - 1 < 2 ^ 16 ->
  let m' := exec (debugSerialBegin F_CPU debugBaud) m in
  0 <= UBRR1H m' < 256
  /\ 0 <= UBRR1L m' < 256
  /\ UBRR1H m' * 256 + UBRR1L m' = F_CPU / (8 * debugBaud) - 1
  /\ Z.testbit (UCSR1A m') U2X1 = true
  /\ UCSR1B m' = 40
  /\ UCSR1C m' = 6.
Proof.
  intros Hb HF Hd m'.
  set (ubrr := uint16 (uint32 (Z.quot (uint32 F_CPU) (uint32 (8 * uint32 debugBaud)) - 1))).
  assert (UBRR1H m' = uint8 (Z.shiftr ubrr 8)) as HH by reflexivity.
  assert (UBRR1L m' = uint8 ubrr) as HL by reflexivity.
  assert (UCSR1A m' = uint8 (Z.lor (UCSR1A m) (Z.shiftl 1 U2X1))) as HA by reflexivity.
  assert (ubrr = F_CPU / (8 * debugBaud) - 1) as Hu.
  { unfold ubrr, uint16, uint32.
    change (2 ^ 32) with 4294967296 in *. change (2 ^ 16) with 65536 in *.
    rewrite (Z.mod_small debugBaud) by lia.
    rewrite (Z.mod_small (8 * debugBaud)) by lia.
    rewrite (Z.mod_small F_CPU) by lia.
    rewrite Z.quot_div_nonneg by lia.
    assert (1 <= F_CPU / (8 * debugBaud)) by (apply Z.div_le_lower_bound; lia).
    set (q := F_CPU / (8 * debugBaud)) in *.
    rewrite (Z.mod_small (q - 1) 4294967296) by lia.
    apply Z.mod_small. lia. }
  assert (0 <= ubrr < 65536).
  { rewrite Hu. change (2 ^ 16) with 65536 in Hd.
    assert (1 <= F_CPU / (8 * debugBaud)) by (apply Z.div_le_lower_bound; lia).
    set (q := F_CPU / (8 * debugBaud)) in *. lia. }
  assert (Z.testbit (UCSR1A m') U2X1 = true) as Hbit.
  { rewrite HA. unfold uint8. rewrite Z.mod_pow2_bits_low by (unfold U2X1; lia).
    rewrite Z.lor_spec. apply orb_true_r. }
  rewrite HH, HL, <- Hu. unfold uint8.
  rewrite Z.shiftr_div_pow2 by lia. change (2 ^ 8) with 256.
  assert (0 <= ubrr / 256 < 256)
    by (split; [apply Z.div_pos; lia | apply Z.div_lt_upper_bound; lia]).
  rewrite (Z.mod_small (ubrr / 256)) by lia.
  pose proof (Z.mod_pos_bound ubrr 256 ltac:(lia)).
  pose proof (Z.div_mod ubrr 256 ltac:(lia)).
  repeat split; try lia; try reflexivity. exact Hbit.
Qed.

Lemma begin_programs_divisor_witness :
  let m' := exec (debugSerialBegin 16000000 9600) power_on in
  0 < 9600
  /\ 8 * 9600 <= 16000000 < 2 ^ 32
  /\ 16000000 / (8 * 9600) - 1 < 2 ^ 16
  /\ UBRR1H m' * 256 + UBRR1L m' = 16000000 / (8 * 9600) - 1.
Proof.
  intros m'.
  assert (H1 : 0 < 9600) by lia.
  assert (H2 : 8 * 9600 <= 16000000 < 2 ^ 32)
    by (split; [discriminate | reflexivity]).
  assert (H3 : 16000000 / (8 * 9600) - 1 < 2 ^ 16) by (vm_compute; reflexivity).
  pose proof (begin_programs_divisor 16000000 9600 power_on H1 H2 H3) as (_ & _ & Hu & _).
  exact (conj H1 (conj H2 (conj H3 Hu))).
Defined.

(** ** The decimal text of an integer *)

Lemma int_char_round_trip x : 0 <= x < 256 -> int_of_char (char_of_int x) = x.
Proof.
  intros Hx. unfold int_of_char, char_of_int. rewrite uint8_small by exact Hx.
  rewrite N_ascii_embedding by lia. lia.
Qed.

Lemma parse_decimal_snoc l c :
  parse_decimal (l ++ [c]) = 10 * parse_decimal l + (int_of_char c - 48).
Proof. unfold parse_decimal. rewrite fold_left_app. reflexivity. Qed.

Lemma parse_decimal_rev l : parse_decimal (rev l) = lsd_value l.
Proof.
  induction l as [|c l IH]; [reflexivity|].
  simpl rev. rewrite parse_decimal_snoc, IH. simpl. lia.
Qed.

(** The second loop sends the first [n] slots, last first. *)
Lemma emit_digits_calls digits n :
  (n <= length digits)%nat ->
  forall m, emit_digits digits n m = emit_all (rev (take n digits)) m.
Proof.
  induction n as [|n IH]; intros Hn m.
  - reflexivity.
  - destruct (lookup_lt_is_Some_2 digits n ltac:(lia)) as [x Hx].
    rewrite (take_S_r _ _ _ Hx), rev_unit. simpl.
    rewrite (nth_lookup_Some _ _ _ _ Hx). unfold bind.
    destruct (uart1_print_char x m) as [[] s]. apply IH. lia.
Qed.

(** What the first loop leaves in the array: from slot [k] on, the decimal
    digits of [value], least significant first, the last of them not 0. *)
Lemma extract_digits_text fuel :
  forall value digits k digits' count',
    0 <= value ->
    (length digits <= 255)%nat ->
    (k <= length digits)%nat ->
    extract_digits fuel value digits (Z.of_nat k) = Done (digits', count') ->
    exists ds,
      count' = Z.of_nat (k + length ds)
      /\ take (k + length ds) digits' = take k digits ++ ds
      /\ (k + length ds <= length digits')%nat
      /\ length digits' = length digits
      /\ lsd_value ds = value
      /\ Forall is_digit ds
      /\ (0 < value -> exists ds0 c, ds = ds0 ++ [c] /\ int_of_char c <> 48).
Proof.
  induction fuel as [|fuel IH]; intros value digits k digits' count' Hv Hmax Hk Hrun.
  - simpl in Hrun. destruct (Z.gtb_spec value 0) as [Hpos|Hnp]; [discriminate|].
    injection Hrun as <- <-. exists []. simpl.
    rewrite Nat.add_0_r, app_nil_r. repeat split; try lia; try done.
  - simpl in Hrun. destruct (Z.gtb_spec value 0) as [Hpos|Hnp].
    + destruct (Nat.ltb_spec (Z.to_nat (Z.of_nat k)) (length digits)) as [Hin|];
        [|discriminate].
      rewrite Nat2Z.id in *. rewrite uint8_small in Hrun by lia.
      pose proof (Z.rem_bound_pos value 10 Hv ltac:(lia)) as Hrem.
      pose proof (Z.quot_rem' value 10) as Hqr.
      set (ch := char_of_int (int_of_char "0" + Z.rem value 10)) in *.
      assert (int_of_char ch = 48 + Z.rem value 10) as Hch.
      { unfold ch. change (int_of_char "0") with 48. apply int_char_round_trip. lia. }
      assert (take (S k) (<[k:=ch]> digits) = take k digits ++ [ch]) as Htake.
      { rewrite (take_S_r _ _ ch) by (apply list_lookup_insert_eq; exact Hin).
        rewrite take_insert_ge by lia. reflexivity. }
      replace (Z.of_nat k + 1) with (Z.of_nat (S k)) in Hrun by lia.
      destruct (Z.eq_dec (Z.quot value 10) 0) as [Hq0|Hq].
      * rewrite extract_digits_done in Hrun by lia. injection Hrun as <- <-.
        exists [ch]. simpl length. rewrite length_insert.
        replace (k + 1)%nat with (S k) by lia.
        repeat split; try lia; try done.
        -- simpl. lia.
        -- constructor; [unfold is_digit; lia | constructor].
        -- intros _. exists [], ch. split; [reflexivity | lia].
      * assert (0 < Z.quot value 10) as Hqpos
            by (pose proof (Z.quot_pos value 10 Hv ltac:(lia)); lia).
        destruct (IH (Z.quot value 10) (<[k:=ch]> digits) (S k) digits' count')
          as (ds1 & Hc & Ht & Hle & Hlen & Hval & Hdig & Hlast);
          [lia | rewrite length_insert; exact Hmax | rewrite length_insert; lia
          | exact Hrun |].
        rewrite length_insert in Hlen.
        exists (ch :: ds1). simpl length.
        replace (k + S (length ds1))%nat with (S k + length ds1)%nat by lia.
        split; [exact Hc|]. split; [rewrite Ht, Htake, <- app_assoc; reflexivity|].
        split; [exact Hle|]. split; [exact Hlen|]. split; [simpl; lia|].
        split; [constructor; [unfold is_digit; lia | exact Hdig]|].
        intros _. destruct (Hlast Hqpos) as (ds0 & c & -> & Hnz).
        exists (ch :: ds0), c. split; [reflexivity | exact Hnz].
    + injection Hrun as <- <-. exists []. simpl.
      rewrite Nat.add_0_r, app_nil_r. repeat split; try lia; try done.
Qed.

(** The calls [debugPrintInt] makes for a value above zero, and for zero. *)
Lemma print_magnitude value :
  0 <= value < 10 ^ 10 ->
  exists ds,
    (forall m,
       (if value =? 0 then uart1_print_char "0"
        else
          match extract_digits (loop_fuel value) value (replicate 10 zero) 0 with
          | Done (digits, count) => emit_digits digits (Z.to_nat count)
          | OutOfBounds | OutOfFuel => ret tt
          end) m = emit_all ds m)
    /\ Forall is_digit ds
    /\ parse_decimal ds = value
    /\ (1 <= length ds <= 10)%nat
    /\ (value <> 0 -> exists c rest, ds = c :: rest /\ int_of_char c <> 48)
    /\ (value = 0 -> ds = ["0"%char]).
Proof.
  intros Hv. destruct (Z.eqb_spec value 0) as [->|Hnz].
  - exists ["0"%char]. split.
    + intros m. simpl. unfold bind. destruct (uart1_print_char "0" m) as [[] s]. reflexivity.
    + repeat split; try done; try (simpl; lia).
      constructor; [unfold is_digit; vm_compute; split; discriminate | constructor].
  - destruct (extract_digits_runs value (replicate 10 zero)) as (d' & c' & He);
      [lia | reflexivity |].
    destruct (extract_digits_text (loop_fuel value) value (replicate 10 zero) 0%nat d' c')
      as (ds & Hc & Ht & Hle & Hlen & Hval & Hdig & Hlast);
      [lia | simpl; lia | simpl; lia | exact He |].
    simpl in Hc, Ht, Hle. destruct (Hlast ltac:(lia)) as (ds0 & c & Hds & Hcz).
    exists (rev ds). split; [|split; [|split; [|split; [|split]]]].
    + intros m. rewrite He, Hc, Nat2Z.id.
      rewrite emit_digits_calls by exact Hle. rewrite Ht. reflexivity.
    + apply Forall_rev. exact Hdig.
    + rewrite parse_decimal_rev. exact Hval.
    + rewrite length_rev. rewrite Hlen in Hle. simpl in Hle.
      subst ds. rewrite length_app in *. simpl in *. lia.
    + intros _. exists c, (rev ds0). subst ds. rewrite rev_unit. done.
    + intros H0. contradiction.
Qed.

(** X10. For every 32-bit [value] other than [INT32_MIN], [debugPrintInt]
    makes the calls of [uart1_print_char] that spell its decimal text:
    ['-'] if it is negative, then between one and ten decimal digits that
    read back as its magnitude, with no leading zero unless the value is 0,
    which is spelt "0". *)
Theorem print_int_decimal (value : Z) :
  INT32_MIN < value <= INT32_MAX ->
  exists ds,
    (forall m,
       debugPrintInt value m
       = emit_all ((if value <? 0 then ["-"%char] else []) ++ ds) m)
    /\ Forall is_digit ds
    /\ parse_decimal ds = Z.abs value
    /\ (1 <= length ds <= 10)%nat
    /\ (value <> 0 -> exists c rest, ds = c :: rest /\ int_of_char c <> 48)
    /\ (value = 0 -> ds = ["0"%char]).
Proof.
  unfold INT32_MIN, INT32_MAX. change (2 ^ 31) with 2147483648. intros Hv.
  destruct (print_magnitude (Z.abs value)) as (ds & Hcalls & Hdig & Hval & Hlen & Hlead & Hz).
  { change (10 ^ 10) with 10000000000. lia. }
  exists ds. split; [|split; [exact Hdig|split; [exact Hval|split; [exact Hlen|split]]]].
  - intros m. unfold debugPrintInt, bind. destruct (Z.ltb_spec value 0) as [Hneg|Hpos].
    + assert (int32 (- value) = Z.abs value) as Habs.
      { unfold int32. change (2 ^ 31) with 2147483648. change (2 ^ 32) with 4294967296.
        rewrite Z.mod_small by lia. lia. }
      simpl emit_all. unfold bind, ret.
      destruct (uart1_print_char "-" m) as [[] s]. rewrite Habs. apply Hcalls.
    + unfold ret. simpl app. specialize (Hcalls m).
      rewrite Z.abs_eq in Hcalls by lia. exact Hcalls.
  - intros Hnz. apply Hlead. lia.
  - intros H0. apply Hz. lia.
Qed.

Lemma print_int_decimal_witness :
  (INT32_MIN < -6789 <= INT32_MAX)
  /\ exists ds,
       (forall m,
          debugPrintInt (-6789) m
          = emit_all ((if -6789 <? 0 then ["-"%char] else []) ++ ds) m)
       /\ Forall is_digit ds
       /\ parse_decimal ds = Z.abs (-6789)
       /\ (1 <= length ds <= 10)%nat
       /\ (-6789 <> 0 -> exists c rest, ds = c :: rest /\ int_of_char c <> 48)
       /\ (-6789 = 0 -> ds = ["0"%char]).
Proof.
  assert (H1 : INT32_MIN < -6789 <= INT32_MAX) by (split; [reflexivity | discriminate]).
  exact (conj H1 (print_int_decimal (-6789) H1)).
Defined.

(** ** The sign of a float *)

Lemma negated_not_negative value :
  SFltb value (float_of_int 0) = true ->
  SFltb (SFopp value) (float_of_int 0) = false.
Proof.
  destruct value as [s | s | | s mant e]; try destruct s; simpl; try discriminate;
    reflexivity.
Qed.

Lemma print_decimals_zero n :
  forall s m,
    print_decimals n (S754_zero s) m = emit_all (replicate n "0"%char) m.
Proof.
  induction n as [|n IH]; intros s m.
  - reflexivity.
  - cbn [print_decimals replicate emit_all]. cbv zeta.
    replace (SFmul prec emax (S754_zero s) (float_of_int 10))
      with (S754_zero s) by (destruct s; reflexivity).
    cbn [int_of_float].
    change (char_of_int (int_of_char "0" + int16 0)) with "0"%char.
    replace (SFsub prec emax (S754_zero s) (float_of_int (int16 0)))
      with (S754_zero s) by (destruct s; reflexivity).
    unfold bind. destruct (uart1_print_char "0" m) as [[] s1]. apply IH.
Qed.

(** X11. A float below zero is printed as ['-'] followed by what its
    negation prints. Negative zero is not below zero: a zero of either sign
    is printed as "0", followed when [decimalPlaces] is positive by ['.']
    and that many zeros, and never with a sign. *)
Theorem print_float_sign (value : spec_float) (decimalPlaces : Z) (m : machine) :
  (SFltb value (float_of_int 0) = true ->
   debugPrintFloat value decimalPlaces m
   = (uart1_print_char "-" ;; debugPrintFloat (SFopp value) decimalPlaces)%cmd m)
  /\ (forall s,
        debugPrintFloat (S754_zero s) decimalPlaces m
        = emit_all ("0"%char :: if decimalPlaces >? 0
                                then "."%char :: replicate (Z.to_nat decimalPlaces) "0"%char
                                else []) m).
Proof.
  split.
  - intros Hneg. unfold debugPrintFloat, bind.
    rewrite Hneg, (negated_not_negative value Hneg).
    destruct (uart1_print_char "-" m) as [[] s]. reflexivity.
  - intros s. unfold debugPrintFloat, bind.
    assert (SFltb (S754_zero s) (float_of_int 0) = false) as -> by (destruct s; reflexivity).
    unfold ret. cbn [int_of_float]. change (int32 0) with 0.
    change (debugPrintInt 0 m) with (uart1_print_char "0" m).
    simpl emit_all. unfold bind.
    destruct (uart1_print_char "0" m) as [[] s1].
    destruct (decimalPlaces >? 0); [|reflexivity].
    simpl emit_all. unfold bind.
    destruct (uart1_print_char "." s1) as [[] s2].
    replace (SFsub prec emax (S754_zero s) (float_of_int 0))
      with (S754_zero s) by (destruct s; reflexivity).
    apply print_decimals_zero.
Qed.
